(** * Page-blob upload of the azurerm storage service

    A shallow embedding of [azurerm/internal/services/storage/blobs.go]:
    the creation dispatch [Create], the page scanner
    [storageBlobPageSplit], the upload coordinator [pageUploadFromSource]
    and the worker [blobPageUploadWorker], followed by the properties the
    specification states about them.

    Go's [int] and [int64] are mathematical integers with the two's
    complement wrap-around written out ([Int64]); byte slices are lists of
    [Byte.byte]; the goroutines of the worker pool are a step function
    driven by an explicit schedule. *)

From Stdlib Require Import ZArith Lia.
From Stdlib.Strings Require Import Byte.
From stdpp Require Import base numbers list strings gmap.

Local Open Scope Z_scope.

(** ** Machine integers *)

Module Int64.
Definition min_int : Z := - 2 ^ 63.
Definition max_int : Z := 2 ^ 63 - 1.

Definition in_range (z : Z) : Prop := min_int <= z <= max_int.

(** The value a 64-bit signed register holds after computing [z]. *)
Definition wrap (z : Z) : Z := (z + 2 ^ 63) mod 2 ^ 64 - 2 ^ 63.

Definition add (a b : Z) : Z := wrap (a + b).
Definition sub (a b : Z) : Z := wrap (a - b).
Definition mul (a b : Z) : Z := wrap (a * b).

(** Go's [%] truncates towards zero, as [Z.rem] does. *)
Definition rem (a b : Z) : Z := Z.rem a b.
End Int64.

(** ** Errors

    One constructor per [fmt.Errorf] call site of the file, carrying the
    formatted arguments; [ExternalError] stands for an error value handed
    back by a collaborator (the blobs client, [os], a reader) and [IoEOF]
    for the sentinel [io.EOF]. *)

Inductive error : Type :=
  | ExternalError (msg : string)
  | IoEOF
  | ErrCopyWaiting (err : error)
  | ErrPutBlockBlob (err : error)
  | ErrOpening (err : error)
  | ErrPutBlockBlobFromFile (err : error)
  | ErrSizeZero
  | ErrPutPageBlob (err : error)
  | ErrSizeSet
  | ErrOpeningSource (source : string) (err : error)
  | ErrStat (name : string) (err : error)
  | ErrCreatingOnAzure (err : error)
  | ErrSplitting (source : string) (err : error)
  | ErrUploading (source : string) (err : error)
  | ErrReadChunk (i : Z) (err : error)
  | ErrReadingSource (source : string) (offset : Z) (err : error)
  | ErrWritingPage (offset : Z) (source : string) (err : error)
  | ErrUnsupportedBlobType (blobType : string).

(** [err != nil && err != io.EOF]: the error that makes a read fail. *)
Definition readFailure (err : option error) : option error :=
  match err with
  | Some IoEOF => None
  | Some e => Some e
  | None => None
  end.

(** ** Readers

    [io.ReaderAt]: [ReadAt n off] is the call [ReadAt(p, off)] on a buffer
    of [n] bytes; it answers the bytes copied to the front of [p] and the
    error.  [readInto] is the buffer after the call when it was freshly
    made (all zero) before it. *)

Module io.
Record ReaderAt : Type := { ReadAt : nat -> Z -> list byte * option error }.

Definition readInto (r : ReaderAt) (n : nat) (off : Z) : list byte * option error :=
  let '(bs, err) := ReadAt r n off in
  (take n (bs ++ replicate n x00), err).

Record SectionReader : Type :=
  { sr_r : ReaderAt; sr_base : Z; sr_off : Z; sr_limit : Z }.

(** The limit is [off + n], or the largest offset when that sum does not
    fit.  (Releases of Go before this guard compute [off + n] alone; the
    two agree whenever the sum fits.) *)
Definition NewSectionReader (r : ReaderAt) (off n : Z) : SectionReader :=
  let remaining :=
    if off <=? Int64.sub Int64.max_int n then Int64.add n off else Int64.max_int in
  {| sr_r := r; sr_base := off; sr_off := off; sr_limit := remaining |}.

Definition Size (s : SectionReader) : Z := Int64.sub (sr_limit s) (sr_base s).

(** [s.Read(p)] on a fresh buffer of [n] bytes: the buffer afterwards
    and the error. *)
Definition Read (s : SectionReader) (n : nat) : list byte * option error :=
  if sr_limit s <=? sr_off s then (replicate n x00, Some IoEOF)
  else
    let max := Int64.sub (sr_limit s) (sr_off s) in
    let m := if max <? Z.of_nat n then Z.to_nat max else n in
    let '(bs, err) := ReadAt (sr_r s) m (sr_off s) in
    (take n (take m bs ++ replicate n x00), err).
End io.

(** [*os.File] as a reader over the content of a file. *)
Definition osFile (content : list byte) : io.ReaderAt :=
  {| io.ReadAt := fun n off =>
       if off <? 0 then ([], Some (ExternalError "negative offset"))
       else
         let bs := take n (drop (Z.to_nat off) content) in
         (bs, if (length bs <? n)%nat then Some IoEOF else None) |}.

(** [bytes.Equal]. *)
Fixpoint bytes_Equal (a b : list byte) : bool :=
  match a, b with
  | [], [] => true
  | x :: a, y :: b => Byte.eqb x y && bytes_Equal a b
  | _, _ => false
  end.

(** ** The page scanner *)

Definition minPageSize : Z := 4 * 1024.
Definition maxPageSize : Z := 4 * 1024 * 1024.

Record byteRange : Type := { range_offset : Z; range_length : Z }.

Record storageBlobPage : Type := { offset : Z; section : io.SectionReader }.

(** The result of the scan: the third case is the model's only, for a
    loop cut short by its fuel; [scanRanges_fuel] shows it never arises. *)
Inductive scan (A : Type) : Type :=
  | ScanOk (a : A)
  | ScanErr (e : error)
  | ScanFuel.
Arguments ScanOk {A} a.
Arguments ScanErr {A} e.
Arguments ScanFuel {A}.

(** [blobSize] of [storageBlobPageSplit]: the file size rounded up to
    whole pages. *)
Definition paddedBlobSize (fileSize : Z) : Z :=
  if negb (Int64.rem fileSize minPageSize =? 0)
  then Int64.add fileSize (Int64.sub minPageSize (Int64.rem fileSize minPageSize))
  else fileSize.

Definition emptyPage : list byte := replicate (Z.to_nat minPageSize) x00.

(** The page the scanner sees at offset [i]. *)
Definition pageBuf (file : io.ReaderAt) (i : Z) : list byte :=
  fst (io.readInto file (Z.to_nat minPageSize) i).

Definition pageErr (file : io.ReaderAt) (i : Z) : option error :=
  readFailure (snd (io.readInto file (Z.to_nat minPageSize) i)).

Definition resetRange (i : Z) : byteRange :=
  {| range_offset := Int64.add i minPageSize; range_length := 0 |}.

(** The [for i := int64(0); i < blobSize; i += minPageSize] loop. *)
Fixpoint splitLoop (fuel : nat) (file : io.ReaderAt) (blobSize i : Z)
    (currentRange : byteRange) (nonEmptyRanges : list byteRange)
    : scan (list byteRange) :=
  if i <? blobSize then
    match fuel with
    | O => ScanFuel
    | S fuel =>
        match pageErr file i with
        | Some err => ScanErr (ErrReadChunk i err)
        | None =>
            if bytes_Equal (pageBuf file i) emptyPage then
              let nonEmptyRanges :=
                if negb (range_length currentRange =? 0)
                then nonEmptyRanges ++ [currentRange]
                else nonEmptyRanges in
              splitLoop fuel file blobSize (Int64.add i minPageSize)
                (resetRange i) nonEmptyRanges
            else
              let currentRange :=
                {| range_offset := range_offset currentRange;
                   range_length := Int64.add (range_length currentRange) minPageSize |} in
              if (range_length currentRange =? maxPageSize)
                 || (Int64.add (range_offset currentRange) (range_length currentRange)
                     =? blobSize)
              then
                splitLoop fuel file blobSize (Int64.add i minPageSize)
                  (resetRange i) (nonEmptyRanges ++ [currentRange])
              else
                splitLoop fuel file blobSize (Int64.add i minPageSize)
                  currentRange nonEmptyRanges
        end
    end
  else ScanOk nonEmptyRanges.

(** Lines 217-254: the non-empty ranges of the file. *)
Definition scanRanges (file : io.ReaderAt) (fileSize : Z) : scan (list byteRange) :=
  let blobSize := paddedBlobSize fileSize in
  splitLoop (Z.to_nat (blobSize / minPageSize)) file blobSize 0
    {| range_offset := 0; range_length := 0 |} [].

Definition pageOfRange (file : io.ReaderAt) (nonEmptyRange : byteRange) : storageBlobPage :=
  {| offset := range_offset nonEmptyRange;
     section := io.NewSectionReader file (range_offset nonEmptyRange)
                  (range_length nonEmptyRange) |}.

Definition storageBlobPageSplit (file : io.ReaderAt) (fileSize : Z)
    : scan (list storageBlobPage) :=
  match scanRanges file fileSize with
  | ScanOk nonEmptyRanges => ScanOk (pageOfRange file <$> nonEmptyRanges)
  | ScanErr e => ScanErr e
  | ScanFuel => ScanFuel
  end.

(** ** Collaborators

    The calls of the blobs client, with the arguments the code passes.
    A client answers a call with an error or with none; its answer may
    depend on the calls made before. *)

Inductive call : Type :=
  | CopyAndWait (accountName containerName blobName : string)
      (CopySource : string) (MetaData : gmap string string)
  | PutBlockBlob (accountName containerName blobName : string)
      (ContentType : string) (MetaData : gmap string string)
  | PutBlockBlobFromFile (accountName containerName blobName : string)
      (fileName : string) (ContentType : string) (MetaData : gmap string string)
  | PutPageBlob (accountName containerName blobName : string)
      (BlobContentLengthBytes : Z) (ContentType : string)
      (MetaData : gmap string string)
  | PutPageUpdate (accountName containerName blobName : string)
      (StartByte EndByte : Z) (Content : list byte).

Record blobsClient : Type := { respond : list call -> call -> option error }.

(** What the run leaves behind: the remote calls with their answers, and
    the reads of the source the workers make through a page's section. *)
Inductive event : Type :=
  | Remote (c : call) (err : option error)
  | SectionRead (page : storageBlobPage) (err : option error).

Definition remoteCalls (log : list event) : list call :=
  omap (fun ev => match ev with Remote c _ => Some c | SectionRead _ _ => None end) log.

Definition attempted (log : list event) : list storageBlobPage :=
  omap (fun ev => match ev with SectionRead page _ => Some page | Remote _ _ => None end) log.

(** A file as [os.Open] hands it out, and the parts of the Go runtime and
    standard library the code reads. *)
Record File : Type :=
  { Name : string; reader : io.ReaderAt; Stat : error + Z }.

Record host : Type :=
  { os_Open : string -> error + File;
    runtime_NumCPU : Z;
    strings_ToLower : string -> string }.

Record BlobUpload : Type :=
  { Client : blobsClient;
    AccountName : string;
    BlobName : string;
    ContainerName : string;
    BlobType : string;
    ContentType : string;
    MetaData : gmap string string;
    Parallelism : Z;
    Size : Z;
    Source : string;
    SourceUri : string }.

(** ** The upload worker pool *)

(** Where a worker stands in the body of [blobPageUploadWorker]. *)
Inductive worker : Type :=
  | Receiving
  | Reading (page : storageBlobPage)
  | Writing (page : storageBlobPage) (start end_ : Z) (chunk : list byte)
  | Reporting (err : error)
  | Finishing
  | Exited.

(** The state the workers share: the closed channel [pages], the channel
    [errors] with its capacity, the counter of the wait group, and the
    workers themselves. *)
Record pool : Type :=
  { pages : list storageBlobPage;
    errors : list error;
    errorsCap : nat;
    wg : Z;
    workers : list worker;
    log : list event;
    panicked : bool }.

Definition setWorker (w : nat) (st : worker) (p : pool) : pool :=
  {| pages := pages p; errors := errors p; errorsCap := errorsCap p; wg := wg p;
     workers := <[w := st]> (workers p); log := log p; panicked := panicked p |}.

Definition setPages (q : list storageBlobPage) (p : pool) : pool :=
  {| pages := q; errors := errors p; errorsCap := errorsCap p; wg := wg p;
     workers := workers p; log := log p; panicked := panicked p |}.

Definition sendError (err : error) (p : pool) : pool :=
  {| pages := pages p; errors := errors p ++ [err]; errorsCap := errorsCap p;
     wg := wg p; workers := workers p; log := log p; panicked := panicked p |}.

Definition wgDone (p : pool) : pool :=
  {| pages := pages p; errors := errors p; errorsCap := errorsCap p;
     wg := wg p - 1; workers := workers p; log := log p; panicked := panicked p |}.

Definition record (ev : event) (p : pool) : pool :=
  {| pages := pages p; errors := errors p; errorsCap := errorsCap p; wg := wg p;
     workers := workers p; log := log p ++ [ev]; panicked := panicked p |}.

Definition panic (p : pool) : pool :=
  {| pages := pages p; errors := errors p; errorsCap := errorsCap p; wg := wg p;
     workers := workers p; log := log p; panicked := true |}.

(** Lines 276-281: the boundaries a worker transmits for a page. *)
Definition transmitBounds (blobSize : Z) (page : storageBlobPage) : Z * Z * Z :=
  let start := offset page in
  let end_ := Int64.sub (Int64.add (offset page) (io.Size (section page))) 1 in
  let end_ := if end_ >? Int64.sub blobSize 1 then Int64.sub blobSize 1 else end_ in
  let size := Int64.add (Int64.sub end_ start) 1 in
  (start, end_, size).

(** One step of worker [w]: [None] when it cannot move (it has left its
    loop, it would block on a full [errors] channel, or the program has
    panicked). *)
Definition blobPageUploadWorker (sbu : BlobUpload) (blobSize : Z)
    (w : nat) (p : pool) : option pool :=
  if panicked p then None
  else
    match workers p !! w with
    | None => None
    | Some Receiving =>
        match pages p with
        | [] => Some (setWorker w Exited p)
        | page :: rest => Some (setWorker w (Reading page) (setPages rest p))
        end
    | Some (Reading page) =>
        let '(start, end_, size) := transmitBounds blobSize page in
        if size <? 0 then Some (panic p)
        else
          let '(chunk, err) := io.Read (section page) (Z.to_nat size) in
          match readFailure err with
          | Some err =>
              Some (setWorker w
                      (Reporting (ErrReadingSource (Source sbu) (offset page) err))
                      (record (SectionRead page (Some err)) p))
          | None =>
              Some (setWorker w (Writing page start end_ chunk)
                      (record (SectionRead page None) p))
          end
    | Some (Writing page start end_ chunk) =>
        let input :=
          PutPageUpdate (AccountName sbu) (ContainerName sbu) (BlobName sbu)
            start end_ chunk in
        match respond (Client sbu) (remoteCalls (log p)) input with
        | Some err =>
            Some (setWorker w
                    (Reporting (ErrWritingPage (offset page) (Source sbu) err))
                    (record (Remote input (Some err)) p))
        | None => Some (setWorker w Finishing (record (Remote input None) p))
        end
    | Some (Reporting err) =>
        if (length (errors p) <? errorsCap p)%nat
        then Some (setWorker w Finishing (sendError err p))
        else None
    | Some Finishing =>
        if wg p - 1 <? 0 then Some (panic p)
        else Some (setWorker w Receiving (wgDone p))
    | Some Exited => None
    end.

(** The pool under a schedule: the workers named by [sched] step in turn
    (one that cannot move is passed over) until the counter of the wait
    group is zero, which is when [wg.Wait()] returns. *)
Fixpoint run (sbu : BlobUpload) (blobSize : Z) (sched : list nat) (p : pool) : pool :=
  match sched with
  | [] => p
  | w :: sched =>
      if wg p =? 0 then p
      else
        match blobPageUploadWorker sbu blobSize w p with
        | Some p' => run sbu blobSize sched p'
        | None => run sbu blobSize sched p
        end
  end.

(** ** The upload coordinator *)

(** What a call has come to under a schedule: it has returned, it still
    waits in [wg.Wait()], or the program has panicked.  [OutOfFuel] is the
    model's only (see [scan]). *)
Inductive outcome : Type :=
  | Returned (err : option error) (log : list event)
  | Waiting (p : pool)
  | Panicked (p : pool)
  | OutOfFuel.

(** Lines 179-198: the channels are made and filled, the counter is set
    and [workerCount] workers are started.  ([total] of the source is
    never read and is left out.) *)
Definition launch (pageList : list storageBlobPage) (workerCount : Z)
    (history : list event) : pool :=
  {| pages := pageList;
     errors := [];
     errorsCap := length pageList;
     wg := Z.of_nat (length pageList);
     workers := replicate (Z.to_nat workerCount) Receiving;
     log := history;
     panicked := false |}.

Definition firstError (sbu : BlobUpload) (p : pool) : option error :=
  match errors p with
  | err :: _ => Some (ErrUploading (Source sbu) err)
  | [] => None
  end.

Definition pageUploadFromSource (h : host) (sched : list nat) (sbu : BlobUpload)
    (history : list event) (file : io.ReaderAt) (fileSize : Z) : outcome :=
  let workerCount := Int64.mul (Parallelism sbu) (runtime_NumCPU h) in
  match storageBlobPageSplit file fileSize with
  | ScanErr err => Returned (Some (ErrSplitting (Source sbu) err)) history
  | ScanFuel => OutOfFuel
  | ScanOk pageList =>
      let p := run sbu fileSize sched (launch pageList workerCount history) in
      if panicked p then Panicked p
      else if wg p =? 0 then Returned (firstError sbu p) (log p)
      else Waiting p
  end.

(** ** The creation dispatch *)

Definition remote (sbu : BlobUpload) (history : list event) (c : call)
    : option error * list event :=
  let err := respond (Client sbu) (remoteCalls history) c in
  (err, history ++ [Remote c err]).

Definition copy (sbu : BlobUpload) (history : list event) : outcome :=
  let '(err, history) :=
    remote sbu history
      (CopyAndWait (AccountName sbu) (ContainerName sbu) (BlobName sbu)
         (SourceUri sbu) (MetaData sbu)) in
  match err with
  | Some err => Returned (Some (ErrCopyWaiting err)) history
  | None => Returned None history
  end.

Definition createEmptyBlockBlob (sbu : BlobUpload) (history : list event) : outcome :=
  let '(err, history) :=
    remote sbu history
      (PutBlockBlob (AccountName sbu) (ContainerName sbu) (BlobName sbu)
         (ContentType sbu) (MetaData sbu)) in
  match err with
  | Some err => Returned (Some (ErrPutBlockBlob err)) history
  | None => Returned None history
  end.

Definition uploadBlockBlob (h : host) (sbu : BlobUpload) (history : list event)
    : outcome :=
  match os_Open h (Source sbu) with
  | inl err => Returned (Some (ErrOpening err)) history
  | inr file =>
      let '(err, history) :=
        remote sbu history
          (PutBlockBlobFromFile (AccountName sbu) (ContainerName sbu) (BlobName sbu)
             (Name file) (ContentType sbu) (MetaData sbu)) in
      match err with
      | Some err => Returned (Some (ErrPutBlockBlobFromFile err)) history
      | None => Returned None history
      end
  end.

Definition createEmptyPageBlob (sbu : BlobUpload) (history : list event) : outcome :=
  if Size sbu =? 0 then Returned (Some ErrSizeZero) history
  else
    let '(err, history) :=
      remote sbu history
        (PutPageBlob (AccountName sbu) (ContainerName sbu) (BlobName sbu)
           (Size sbu) (ContentType sbu) (MetaData sbu)) in
    match err with
    | Some err => Returned (Some (ErrPutPageBlob err)) history
    | None => Returned None history
    end.

(** Lines 155-157: an error of the coordinator is wrapped. *)
Definition creatingOnAzure (o : outcome) : outcome :=
  match o with
  | Returned (Some err) log => Returned (Some (ErrCreatingOnAzure err)) log
  | o => o
  end.

Definition uploadPageBlob (h : host) (sched : list nat) (sbu : BlobUpload)
    (history : list event) : outcome :=
  if negb (Size sbu =? 0) then Returned (Some ErrSizeSet) history
  else
    match os_Open h (Source sbu) with
    | inl err => Returned (Some (ErrOpeningSource (Source sbu) err)) history
    | inr file =>
        match Stat file with
        | inl err => Returned (Some (ErrStat (Name file) err)) history
        | inr fileSize =>
            let '(err, history) :=
              remote sbu history
                (PutPageBlob (AccountName sbu) (ContainerName sbu) (BlobName sbu)
                   fileSize (ContentType sbu) (MetaData sbu)) in
            match err with
            | Some err => Returned (Some (ErrPutPageBlob err)) history
            | None =>
                creatingOnAzure
                  (pageUploadFromSource h sched sbu history (reader file) fileSize)
            end
        end
    end.

Definition Create (h : host) (sched : list nat) (sbu : BlobUpload) : outcome :=
  if negb (String.eqb (SourceUri sbu) "") then copy sbu []
  else
    let blobType := strings_ToLower h (BlobType sbu) in
    if String.eqb blobType "block" then
      if negb (String.eqb (Source sbu) "") then uploadBlockBlob h sbu []
      else createEmptyBlockBlob sbu []
    else if String.eqb blobType "page" then
      if negb (String.eqb (Source sbu) "") then uploadPageBlob h sched sbu []
      else createEmptyPageBlob sbu []
    else Returned (Some (ErrUnsupportedBlobType blobType)) [].

(** ** Vocabulary of the properties *)

(** A multiple of the page unit. *)
Definition aligned (z : Z) : Prop := exists k, z = k * minPageSize.

(** The scanner's test on the page read at offset [i]:
    [!bytes.Equal(pageBuf, emptyPage)]. *)
Definition nonEmptyPage (file : io.ReaderAt) (i : Z) : bool :=
  negb (bytes_Equal (pageBuf file i) emptyPage).

Definition range_end (r : byteRange) : Z := range_offset r + range_length r.

Definition covers (r : byteRange) (j : Z) : Prop :=
  range_offset r <= j < range_end r.

Definition covered (j : Z) (rs : list byteRange) : Prop :=
  exists r, r ∈ rs /\ covers r j.

(** The ranges follow one another between [lo] and [hi]: each starts at
    or after the end of the one before. *)
Fixpoint chain (lo : Z) (rs : list byteRange) (hi : Z) : Prop :=
  match rs with
  | [] => lo <= hi
  | r :: rs => lo <= range_offset r /\ chain (range_end r) rs hi
  end.

Definition range_wf (r : byteRange) : Prop :=
  aligned (range_offset r) /\ aligned (range_length r) /\
  0 < range_length r <= maxPageSize.

(** Why a range ends where it does: the ceiling, the end of the blob, or
    an empty page. *)
Definition closed (file : io.ReaderAt) (blobSize : Z) (r : byteRange) : Prop :=
  range_length r = maxPageSize \/ range_end r = blobSize \/
  nonEmptyPage file (range_end r) = false.

Definition totalLength (rs : list byteRange) : Z :=
  foldr (fun r s => range_length r + s) 0 rs.

(** The range a queued page stands for. *)
Definition rangeOfPage (page : storageBlobPage) : byteRange :=
  {| range_offset := offset page; range_length := io.Size (section page) |}.

(** The buffer holds a byte that is not zero. *)
Definition hasNonZero (buf : list byte) : Prop :=
  exists (k : nat) b, buf !! k = Some b /\ b <> x00.

Definition isZeroByte (b : byte) : bool := Byte.eqb b x00.

Definition isNonZeroByte (b : byte) : bool := negb (isZeroByte b).

(** The bytes of a file that lie in the page unit at offset [i]. *)
Definition pageBytes (content : list byte) (i : Z) : list byte :=
  take (Z.to_nat minPageSize) (drop (Z.to_nat i) content).

(** What holds each time the scanner's loop tests [i < blobSize]. *)
Record loopInv (file : io.ReaderAt) (blobSize i : Z)
    (cur : byteRange) (acc : list byteRange) : Prop :=
  { inv_i : aligned i;
    inv_bounds : 0 <= i <= blobSize;
    inv_cur : range_offset cur + range_length cur = i;
    inv_len : 0 <= range_length cur < maxPageSize;
    inv_len_aligned : aligned (range_length cur);
    inv_end : i = blobSize -> range_length cur = 0;
    inv_wf : Forall range_wf acc;
    inv_closed : Forall (closed file blobSize) acc;
    inv_chain : chain 0 acc (range_offset cur);
    inv_cover : forall j, aligned j -> 0 <= j < i ->
      (nonEmptyPage file j = true <-> covered j acc \/ range_offset cur <= j) }.

(** What the scanner promises of the ranges it returns. *)
Record scanned (file : io.ReaderAt) (blobSize : Z) (rs : list byteRange) : Prop :=
  { scanned_wf : Forall range_wf rs;
    scanned_closed : Forall (closed file blobSize) rs;
    scanned_chain : chain 0 rs blobSize;
    scanned_cover : forall j, aligned j -> 0 <= j < blobSize ->
      (nonEmptyPage file j = true <-> covered j rs) }.

(** What the loop answers from a state that satisfies the invariant:
    the ranges, when every remaining page can be read; the first page
    that cannot, otherwise. *)
Definition loopAnswer (file : io.ReaderAt) (blobSize i : Z)
    (res : scan (list byteRange)) : Prop :=
  match res with
  | ScanOk rs =>
      scanned file blobSize rs /\
      forall j, aligned j -> i <= j < blobSize -> pageErr file j = None
  | ScanErr e =>
      exists j err, e = ErrReadChunk j err /\ aligned j /\ i <= j < blobSize /\
        pageErr file j = Some err /\
        forall k, aligned k -> i <= k < j -> pageErr file k = None
  | ScanFuel => False
  end.

(** What the workers hold, as functions of where they stand: an item of
    the queue not yet signalled as done ([inflight]), an item that may
    still send an error ([unsent]), a page taken from the queue and not
    yet read ([holding]), an error not yet sent ([pending]). *)
Definition inflight (w : worker) : Z :=
  match w with Receiving | Exited => 0 | _ => 1 end.

Definition unsent (w : worker) : Z :=
  match w with Reading _ | Writing _ _ _ _ | Reporting _ => 1 | _ => 0 end.

Definition holding (w : worker) : list storageBlobPage :=
  match w with Reading page => [page] | _ => [] end.

Definition pending (w : worker) : list error :=
  match w with Reporting err => [err] | _ => [] end.

Definition writing (w : worker) : Z :=
  match w with Writing _ _ _ _ => 1 | _ => 0 end.

Definition total (f : worker -> Z) (ws : list worker) : Z :=
  foldr (fun w s => f w + s) 0 ws.

(** The error a worker reports for an event that failed. *)
Definition failure (sbu : BlobUpload) (ev : event) : option error :=
  match ev with
  | SectionRead page (Some err) =>
      Some (ErrReadingSource (Source sbu) (offset page) err)
  | Remote (PutPageUpdate _ _ _ start _ _) (Some err) =>
      Some (ErrWritingPage start (Source sbu) err)
  | _ => None
  end.

Definition failures (sbu : BlobUpload) (log : list event) : list error :=
  omap (failure sbu) log.

(** The pages whose read for upload failed. *)
Definition failedReads (log : list event) : list storageBlobPage :=
  omap (fun ev => match ev with SectionRead page (Some _) => Some page | _ => None end)
    log.

(** The write a worker has prepared is the one [transmitBounds] gives for
    a page of the list. *)
Definition writingOk (blobSize : Z) (pageList : list storageBlobPage)
    (w : worker) : Prop :=
  match w with
  | Writing page start end_ chunk =>
      page ∈ pageList /\
      transmitBounds blobSize page = (start, end_, Z.of_nat (length chunk))
  | _ => True
  end.

Definition eventOk (sbu : BlobUpload) (blobSize : Z)
    (pageList : list storageBlobPage) (ev : event) : Prop :=
  match ev with
  | Remote (PutPageUpdate a c b start end_ chunk) _ =>
      a = AccountName sbu /\ c = ContainerName sbu /\ b = BlobName sbu /\
      exists page, page ∈ pageList /\
        transmitBounds blobSize page = (start, end_, Z.of_nat (length chunk))
  | Remote _ _ => False
  | SectionRead page _ => page ∈ pageList
  end.

(** What holds of the pool at every moment of a run; [new] is what the
    workers have added to the log. *)
Record poolInv (sbu : BlobUpload) (blobSize : Z) (pageList : list storageBlobPage)
    (history : list event) (p : pool) (new : list event) : Prop :=
  { pi_log : log p = history ++ new;
    pi_cap : errorsCap p = length pageList;
    pi_wg : wg p = Z.of_nat (length (pages p)) + total inflight (workers p);
    pi_room :
      Z.of_nat (length (errors p)) + total unsent (workers p)
      + Z.of_nat (length (pages p)) <= Z.of_nat (length pageList);
    pi_pages : pageList ≡ₚ pages p ++ (workers p ≫= holding) ++ attempted new;
    pi_errors : failures sbu new ≡ₚ errors p ++ (workers p ≫= pending);
    pi_writes :
      Z.of_nat (length (remoteCalls new)) + total writing (workers p)
      + Z.of_nat (length (failedReads new)) = Z.of_nat (length (attempted new));
    pi_writing : Forall (writingOk blobSize pageList) (workers p);
    pi_events : Forall (eventOk sbu blobSize pageList) new;
    pi_exited : pages p <> [] -> Exited ∉ workers p }.

(** How far a worker is from leaving its loop, and the pool from rest:
    every step of a worker makes [measure] smaller. *)
Definition weight (w : worker) : Z :=
  match w with
  | Exited => 0
  | Receiving => 1
  | Finishing => 2
  | Reporting _ => 3
  | Writing _ _ _ _ => 4
  | Reading _ => 5
  end.

Definition measure (p : pool) : Z :=
  5 * Z.of_nat (length (pages p)) + total weight (workers p)
  + (if panicked p then 0 else 1).

(** The schedule that lets each of [n] workers step in turn, [k] times
    over. *)
Definition roundRobin (n k : nat) : list nat := mjoin (replicate k (seq 0 n)).

(** The size the page blob was created with, and the writes made to it
    (first byte, last byte, bytes of content), as the log has them. *)
Definition createdSize (log : list event) : list Z :=
  omap (fun ev => match ev with
                  | Remote (PutPageBlob _ _ _ size _ _) _ => Some size
                  | _ => None
                  end) log.

Definition writes (log : list event) : list (Z * Z * Z) :=
  omap (fun ev => match ev with
                  | Remote (PutPageUpdate _ _ _ start end_ chunk) _ =>
                      Some (start, end_, Z.of_nat (length chunk))
                  | _ => None
                  end) log.

(** ** Scenarios

    The file of the specification's scenario (10,000 bytes, zero in
    [4096,8191]), a host that has it on disk under the name [disk.vhd]
    with one processing unit, clients that accept every call or refuse
    the write at a given offset, and a reader that fails at offset 4096. *)
Definition scenarioFile : list byte :=
  replicate 4096 xff ++ replicate 4096 x00 ++ replicate 1808 xff.

Fixpoint asciiToLower (s : string) : string :=
  match s with
  | EmptyString => EmptyString
  | String c s =>
      let n := Ascii.nat_of_ascii c in
      String
        (if ((65 <=? n) && (n <=? 90))%nat then Ascii.ascii_of_nat (n + 32) else c)
        (asciiToLower s)
  end.

Definition scenarioHost : host :=
  {| os_Open := fun path =>
       if String.eqb path "disk.vhd"
       then inr {| Name := path; reader := osFile scenarioFile; Stat := inr 10000 |}
       else inl (ExternalError "no such file or directory");
     runtime_NumCPU := 1;
     strings_ToLower := asciiToLower |}.

Definition acceptingClient : blobsClient := {| respond := fun _ _ => None |}.

Definition refusingClient (at_ : Z) : blobsClient :=
  {| respond := fun _ c =>
       match c with
       | PutPageUpdate _ _ _ start _ _ =>
           if start =? at_ then Some (ExternalError "server busy") else None
       | _ => None
       end |}.

Definition scenarioUpload (client : blobsClient) (parallelism : Z) : BlobUpload :=
  {| Client := client;
     AccountName := "account";
     BlobName := "disk";
     ContainerName := "vhds";
     BlobType := "Page";
     ContentType := "application/octet-stream";
     MetaData := ∅;
     Parallelism := parallelism;
     Size := 0;
     Source := "disk.vhd";
     SourceUri := "" |}.

Definition faultyReader : io.ReaderAt :=
  {| io.ReadAt := fun n off =>
       if off =? 4096 then ([], Some (ExternalError "input/output error"))
       else (replicate n xff, None) |}.

(** The log of an outcome. *)
Definition outcomeLog (o : outcome) : list event :=
  match o with
  | Returned _ log => log
  | Waiting p => log p
  | Panicked p => log p
  | OutOfFuel => []
  end.

(** ** What the workers read and write

    Lines 283-294 for one page: the bytes the worker reads through the
    section of the page, the error of that read, and the write it then
    asks for. *)
Definition readChunk (blobSize : Z) (page : storageBlobPage) : list byte :=
  fst (io.Read (section page) (Z.to_nat (transmitBounds blobSize page).2)).

Definition readErr (blobSize : Z) (page : storageBlobPage) : option error :=
  readFailure (snd (io.Read (section page) (Z.to_nat (transmitBounds blobSize page).2))).

Definition readable (blobSize : Z) (page : storageBlobPage) : bool :=
  match readErr blobSize page with None => true | Some _ => false end.

Definition writeOf (blobSize : Z) (page : storageBlobPage) : Z * Z * list byte :=
  ((transmitBounds blobSize page).1.1, (transmitBounds blobSize page).1.2,
   readChunk blobSize page).

(** The writes of a log with their content, the pages read without
    failure, and the write a worker is about to make. *)
Definition written (log : list event) : list (Z * Z * list byte) :=
  omap (fun ev => match ev with
                  | Remote (PutPageUpdate _ _ _ start end_ chunk) _ =>
                      Some (start, end_, chunk)
                  | _ => None
                  end) log.

Definition okReads (log : list event) : list storageBlobPage :=
  omap (fun ev => match ev with SectionRead page None => Some page | _ => None end)
    log.

Definition preparing (w : worker) : list (Z * Z * list byte) :=
  match w with Writing _ start end_ chunk => [(start, end_, chunk)] | _ => [] end.

Definition readEventOk (blobSize : Z) (ev : event) : Prop :=
  match ev with
  | SectionRead page err => err = readErr blobSize page
  | Remote _ _ => True
  end.

Definition answerOk (sbu : BlobUpload) (ev : event) : Prop :=
  match ev with
  | Remote c err => exists calls, err = respond (Client sbu) calls c
  | SectionRead _ _ => True
  end.

(** What holds of the content the pool moves, at every moment of a run. *)
Record contentInv (sbu : BlobUpload) (blobSize : Z) (history : list event)
    (p : pool) (new : list event) : Prop :=
  { ci_log : log p = history ++ new;
    ci_reads : Forall (readEventOk blobSize) new;
    ci_answers : Forall (answerOk sbu) new;
    ci_writes :
      writeOf blobSize <$> okReads new ≡ₚ written new ++ (workers p ≫= preparing) }.

(** The bytes the writes of the queued pages carry, all together. *)
Definition totalSize (blobSize : Z) (pageList : list storageBlobPage) : Z :=
  foldr (fun page s => (transmitBounds blobSize page).2 + s) 0 pageList.

(** A request to copy from a URL, and a file of zero bytes. *)
Definition scenarioCopy : BlobUpload :=
  {| Client := acceptingClient;
     AccountName := "account";
     BlobName := "disk";
     ContainerName := "vhds";
     BlobType := "no such type";
     ContentType := "application/octet-stream";
     MetaData := ∅;
     Parallelism := 0;
     Size := 7;
     Source := "disk.vhd";
     SourceUri := "https://example.org/disk.vhd" |}.

Definition zeroFile : list byte := replicate 5000 x00.

(** Requests with no copy source, to be refused or to fail early: the blob
    type, the size and the source file are given. *)
Definition plainUpload (client : blobsClient) (blobType : string) (size : Z)
    (source : string) : BlobUpload :=
  {| Client := client;
     AccountName := "account";
     BlobName := "disk";
     ContainerName := "vhds";
     BlobType := blobType;
     ContentType := "application/octet-stream";
     MetaData := ∅;
     Parallelism := 1;
     Size := size;
     Source := source;
     SourceUri := "" |}.

(** A host on which every file opens but none can be examined, and a
    client that refuses the creation of a page blob. *)
Definition staleHost : host :=
  {| os_Open := fun path =>
       inr {| Name := path; reader := osFile scenarioFile;
              Stat := inl (ExternalError "stale file handle") |};
     runtime_NumCPU := 1;
     strings_ToLower := asciiToLower |}.

Definition quotaClient : blobsClient :=
  {| respond := fun _ c =>
       match c with
       | PutPageBlob _ _ _ _ _ _ => Some (ExternalError "quota exceeded")
       | _ => None
       end |}.

(** A client that refuses no call. *)
Definition accepting (client : blobsClient) : Prop :=
  forall calls c, respond client calls c = None.

(** * Properties *)

(** ** Machine arithmetic *)

Lemma minPageSize_eq : minPageSize = 4096.
Proof. reflexivity. Qed.

Lemma maxPageSize_eq : maxPageSize = 4194304.
Proof. reflexivity. Qed.

Lemma max_int_eq : Int64.max_int = 9223372036854775807.
Proof. reflexivity. Qed.

Lemma min_int_eq : Int64.min_int = -9223372036854775808.
Proof. reflexivity. Qed.

Ltac sizes :=
  rewrite ?minPageSize_eq, ?maxPageSize_eq, ?max_int_eq, ?min_int_eq in *.

Lemma wrap_in_range z : Int64.in_range z -> Int64.wrap z = z.
Proof.
  unfold Int64.in_range, Int64.wrap. sizes. intros H.
  change (2 ^ 63) with 9223372036854775808.
  change (2 ^ 64) with 18446744073709551616.
  rewrite Z.mod_small; lia.
Qed.

Lemma wrap_range z : Int64.in_range (Int64.wrap z).
Proof.
  unfold Int64.in_range, Int64.wrap. sizes.
  change (2 ^ 63) with 9223372036854775808.
  change (2 ^ 64) with 18446744073709551616.
  pose proof (Z.mod_pos_bound (z + 9223372036854775808) 18446744073709551616).
  lia.
Qed.

Lemma add_in_range a b : Int64.in_range (a + b) -> Int64.add a b = a + b.
Proof. apply wrap_in_range. Qed.

Lemma sub_in_range a b : Int64.in_range (a - b) -> Int64.sub a b = a - b.
Proof. apply wrap_in_range. Qed.

(** ** The padded size *)

Lemma aligned_0 : aligned 0.
Proof. exists 0. reflexivity. Qed.

Lemma aligned_add a b : aligned a -> aligned b -> aligned (a + b).
Proof. intros [k ->] [l ->]. exists (k + l). lia. Qed.

Lemma aligned_minPageSize : aligned minPageSize.
Proof. exists 1. lia. Qed.

Lemma aligned_lt a b : aligned a -> aligned b -> a < b -> a + minPageSize <= b.
Proof. intros [k ->] [l ->]. sizes. lia. Qed.

Lemma rem_facts a :
  exists q, a = q * minPageSize + Int64.rem a minPageSize /\
    - minPageSize < Int64.rem a minPageSize < minPageSize /\
    (0 <= a -> 0 <= Int64.rem a minPageSize) /\
    (a <= 0 -> Int64.rem a minPageSize <= 0).
Proof.
  unfold Int64.rem. sizes. exists (a ÷ 4096).
  Z.to_euclidean_division_equations. lia.
Qed.

Lemma paddedBlobSize_small fileSize :
  Int64.min_int <= fileSize <= Int64.max_int - 4095 ->
  aligned (paddedBlobSize fileSize) /\
  fileSize <= paddedBlobSize fileSize < fileSize + 2 * minPageSize /\
  (0 <= fileSize -> paddedBlobSize fileSize < fileSize + minPageSize).
Proof.
  intros Hr. unfold paddedBlobSize.
  destruct (rem_facts fileSize) as (q & Hq & Hb & Hpos & Hneg).
  destruct (Z.eqb_spec (Int64.rem fileSize minPageSize) 0) as [E|E]; simpl.
  - split; [exists q; lia|]. sizes. lia.
  - rewrite (sub_in_range minPageSize); [|unfold Int64.in_range; sizes; lia].
    rewrite add_in_range; [|unfold Int64.in_range; sizes; lia].
    split; [exists (q + 1); lia|]. sizes. lia.
Qed.

Lemma paddedBlobSize_overflow fileSize :
  Int64.max_int - 4095 < fileSize <= Int64.max_int ->
  paddedBlobSize fileSize = Int64.min_int.
Proof.
  intros Hr. unfold paddedBlobSize.
  destruct (rem_facts fileSize) as (q & Hq & Hb & Hpos & Hneg).
  assert (Int64.rem fileSize minPageSize <> 0) as E.
  { intros E. sizes. lia. }
  destruct (Z.eqb_spec (Int64.rem fileSize minPageSize) 0) as [E'|_]; [done|]; simpl.
  rewrite (sub_in_range minPageSize); [|unfold Int64.in_range; sizes; lia].
  unfold Int64.add.
  assert (fileSize + (minPageSize - Int64.rem fileSize minPageSize)
          = 9223372036854775808) as ->.
  { sizes. lia. }
  reflexivity.
Qed.

(** Whatever the size, the scanner's [blobSize] is a whole number of
    pages that a 64-bit integer holds. *)
Lemma paddedBlobSize_aligned fileSize :
  Int64.in_range fileSize ->
  aligned (paddedBlobSize fileSize) /\ Int64.in_range (paddedBlobSize fileSize).
Proof.
  intros Hr. unfold Int64.in_range in Hr.
  destruct (Z.le_gt_cases fileSize (Int64.max_int - 4095)) as [Hs|Hs].
  - destruct (paddedBlobSize_small fileSize) as (Ha & Hb & Hc); [lia|].
    split; [done|]. unfold Int64.in_range. sizes.
    destruct (Z.le_gt_cases 0 fileSize); [specialize (Hc ltac:(done))|]; lia.
  - rewrite paddedBlobSize_overflow by lia. split.
    + exists (- 2 ^ 51). reflexivity.
    + unfold Int64.in_range. sizes. lia.
Qed.

(** C9, as the code has it: for every file size from 0 up to
    2^63 - 4096 (the sizes whose padding a 64-bit integer holds), the
    padded blob size of the scanner is the smallest multiple of the page
    unit that is at least the file size; a size that already is a
    multiple is unchanged. *)
Theorem paddedBlobSize_least fileSize :
  0 <= fileSize <= Int64.max_int - 4095 ->
  aligned (paddedBlobSize fileSize) /\
  fileSize <= paddedBlobSize fileSize /\
  (forall m, aligned m -> fileSize <= m -> paddedBlobSize fileSize <= m) /\
  (aligned fileSize -> paddedBlobSize fileSize = fileSize).
Proof.
  intros Hr.
  destruct (paddedBlobSize_small fileSize) as (Ha & Hb & Hc);
    [unfold Int64.min_int; lia|].
  specialize (Hc (proj1 Hr)).
  split; [done|]. split; [lia|]. split.
  - intros m [k ->] Hm. destruct Ha as [l Hl]. rewrite Hl in *. sizes. lia.
  - intros [k Hk]. destruct Ha as [l Hl]. rewrite Hl in *. sizes. lia.
Qed.

(** C9 as stated fails at the largest sizes: the rounding wraps around. *)
Lemma paddedBlobSize_wraps :
  0 <= Int64.max_int /\ Int64.in_range Int64.max_int /\
  paddedBlobSize Int64.max_int = Int64.min_int /\
  ~ (Int64.max_int <= paddedBlobSize Int64.max_int).
Proof.
  split; [discriminate|]. split; [split; discriminate|].
  split; [reflexivity|]. vm_compute. intros H. apply H. reflexivity.
Qed.

(** ** Ranges that follow one another *)

Lemma chain_app lo rs r hi :
  chain lo (rs ++ [r]) hi <-> chain lo rs (range_offset r) /\ range_end r <= hi.
Proof.
  revert lo. induction rs as [|r' rs IH]; simpl; intros lo.
  - tauto.
  - rewrite IH. tauto.
Qed.

Lemma chain_weaken lo rs hi hi' : hi <= hi' -> chain lo rs hi -> chain lo rs hi'.
Proof.
  revert lo. induction rs as [|r rs IH]; simpl; intros lo Hle.
  - lia.
  - intros [H1 H2]. split; [done|]. by apply IH.
Qed.

Lemma chain_le lo rs hi : Forall range_wf rs -> chain lo rs hi -> lo <= hi.
Proof.
  intros Hwf. revert lo. induction Hwf as [|r rs (_ & _ & Hr) _ IH]; simpl; intros lo.
  - done.
  - intros [H1 H2]. apply IH in H2. unfold range_end in H2. lia.
Qed.

Lemma chain_bounds lo rs hi r :
  Forall range_wf rs -> chain lo rs hi -> r ∈ rs ->
  lo <= range_offset r /\ range_end r <= hi.
Proof.
  intros Hwf. revert lo.
  induction Hwf as [|r' rs Hr' Hwf IH]; simpl; intros lo Hc Hin.
  - by apply elem_of_nil in Hin.
  - destruct Hc as [H1 H2]. apply elem_of_cons in Hin as [->|Hin].
    + split; [done|]. by apply chain_le in H2.
    + destruct (IH _ H2 Hin) as [H3 H4]. split; [|done].
      destruct Hr' as (_ & _ & Hr'). unfold range_end in H3. lia.
Qed.

Lemma chain_lookup lo rs hi (a b : nat) r1 r2 :
  Forall range_wf rs -> chain lo rs hi ->
  rs !! a = Some r1 -> rs !! b = Some r2 -> (a < b)%nat ->
  range_end r1 <= range_offset r2.
Proof.
  intros Hwf. revert lo a b.
  induction Hwf as [|r rs Hr Hwf IH]; intros lo a b Hc Ha Hb Hab.
  - done.
  - destruct Hc as [H1 H2]. destruct b as [|b]; [lia|]. simpl in Hb.
    destruct a as [|a]; simpl in Ha.
    + injection Ha as ->.
      apply list_elem_of_lookup_2 in Hb.
      by destruct (chain_bounds _ _ _ _ Hwf H2 Hb).
    + eapply (IH _ a b); eauto. lia.
Qed.

Lemma covered_nil j : ~ covered j [].
Proof. intros (r & Hin & _). by apply elem_of_nil in Hin. Qed.

Lemma covered_app j rs r : covered j (rs ++ [r]) <-> covered j rs \/ covers r j.
Proof.
  unfold covered. split.
  - intros (r' & Hin & Hc). apply elem_of_app in Hin as [Hin|Hin].
    + left. eauto.
    + apply list_elem_of_singleton in Hin as ->. by right.
  - intros [(r' & Hin & Hc)|Hc].
    + exists r'. split; [|done]. apply elem_of_app. by left.
    + exists r. split; [|done]. apply elem_of_app. right. by apply list_elem_of_singleton.
Qed.

Lemma covered_bounds lo rs hi j :
  Forall range_wf rs -> chain lo rs hi -> covered j rs -> lo <= j < hi.
Proof.
  intros Hwf Hc (r & Hin & Hj).
  destruct (chain_bounds _ _ _ _ Hwf Hc Hin). unfold covers in Hj. lia.
Qed.

(** ** The scanner's loop *)

Lemma splitLoop_exit fuel file blobSize i cur acc :
  blobSize <= i -> splitLoop fuel file blobSize i cur acc = ScanOk acc.
Proof.
  intros H. destruct fuel; simpl; destruct (Z.ltb_spec i blobSize); done || lia.
Qed.

Lemma splitLoop_step fuel file blobSize i cur acc :
  i < blobSize ->
  splitLoop (S fuel) file blobSize i cur acc =
    match pageErr file i with
    | Some err => ScanErr (ErrReadChunk i err)
    | None =>
        if nonEmptyPage file i then
          let cur' :=
            {| range_offset := range_offset cur;
               range_length := Int64.add (range_length cur) minPageSize |} in
          if (range_length cur' =? maxPageSize)
             || (Int64.add (range_offset cur') (range_length cur') =? blobSize)
          then splitLoop fuel file blobSize (Int64.add i minPageSize)
                 (resetRange i) (acc ++ [cur'])
          else splitLoop fuel file blobSize (Int64.add i minPageSize) cur' acc
        else
          splitLoop fuel file blobSize (Int64.add i minPageSize) (resetRange i)
            (if negb (range_length cur =? 0) then acc ++ [cur] else acc)
    end.
Proof.
  intros H. cbn [splitLoop]. destruct (Z.ltb_spec i blobSize); [|lia].
  unfold nonEmptyPage. destruct (pageErr file i); [done|].
  by destruct (bytes_Equal (pageBuf file i) emptyPage).
Qed.

Lemma loopAnswer_step file blobSize i res :
  aligned i -> pageErr file i = None -> i < blobSize ->
  loopAnswer file blobSize (i + minPageSize) res -> loopAnswer file blobSize i res.
Proof.
  intros Hi He Hlt. destruct res as [rs|e|]; simpl; [| |done].
  - intros [Hs Hj]. split; [done|]. intros j Haj Hjb.
    destruct (Z.eq_dec j i) as [->|Hne]; [done|].
    apply Hj; [done|]. pose proof (aligned_lt i j Hi Haj). lia.
  - intros (j & err & -> & Haj & Hjb & Hje & Hk).
    exists j, err. split; [done|]. split; [done|].
    pose proof minPageSize_eq. split; [lia|]. split; [done|].
    intros k Hak Hkb. destruct (Z.eq_dec k i) as [->|Hne]; [done|].
    apply Hk; [done|]. pose proof (aligned_lt i k Hi Hak). lia.
Qed.

Lemma loopInv_final file blobSize cur acc :
  loopInv file blobSize blobSize cur acc -> scanned file blobSize acc.
Proof.
  intros [Hi Hb Hcur Hlen Hal Hend Hwf Hcl Hch Hcov].
  specialize (Hend eq_refl).
  assert (range_offset cur = blobSize) as Hoff by lia.
  rewrite Hoff in *. constructor; try done.
  intros j Hj Hjb. rewrite Hcov by done. intuition lia.
Qed.

(** The invariant is kept by each of the three ways round the loop. *)

Section loop_step.
Context (file : io.ReaderAt) (blobSize i : Z) (cur : byteRange) (acc : list byteRange).
Hypothesis Hb : aligned blobSize.
Hypothesis Hinv : loopInv file blobSize i cur acc.
Hypothesis Hlt : i < blobSize.

Lemma split_page j : aligned j -> 0 <= j < i + minPageSize -> j < i \/ j = i.
Proof using Hinv.
  intros Hj Hjb. destruct (Z.lt_trichotomy j i) as [?|[?|?]]; [by left|by right|].
  pose proof (aligned_lt i j (inv_i _ _ _ _ _ Hinv) Hj). lia.
Qed.

Lemma cur_offset_aligned : aligned (range_offset cur).
Proof using Hinv.
  destruct Hinv as [[a Ha] _ Hc _ [b Hb'] _ _ _ _ _].
  exists (a - b). lia.
Qed.

Lemma loopInv_empty :
  nonEmptyPage file i = false ->
  loopInv file blobSize (i + minPageSize)
    {| range_offset := i + minPageSize; range_length := 0 |}
    (if negb (range_length cur =? 0) then acc ++ [cur] else acc).
Proof using Hb Hinv Hlt.
  intros Hne. pose proof split_page as Hsplit. pose proof cur_offset_aligned as Hoff.
  destruct Hinv as [Hi Hbd Hcur Hlen Hal Hend Hwf Hcl Hch Hcov].
  pose proof (aligned_lt i blobSize Hi Hb Hlt) as Hnext.
  assert (aligned (i + minPageSize)) as Hai
    by (apply aligned_add; [done|apply aligned_minPageSize]).
  pose proof minPageSize_eq as Hmin. pose proof maxPageSize_eq as Hmax.
  destruct (Z.eqb_spec (range_length cur) 0) as [E|E]; cbn [negb].
  - constructor; cbn [range_offset range_length]; try done; try lia.
    + apply aligned_0.
    + eapply chain_weaken; [|done]. lia.
    + intros j Hj Hjb. destruct (Hsplit j Hj Hjb) as [Hlo| ->].
      * rewrite Hcov by (done || lia). intuition lia.
      * rewrite Hne. split; [done|]. intros [Hc|?]; [|lia].
        pose proof (covered_bounds _ _ _ _ Hwf Hch Hc). lia.
  - assert (range_wf cur) as Hwfc by (split; [done|split; [done|lia]]).
    constructor; cbn [range_offset range_length]; try done; try lia.
    + apply aligned_0.
    + apply Forall_app; split; [done|]. by apply Forall_singleton.
    + apply Forall_app; split; [done|]. apply Forall_singleton.
      unfold closed, range_end. rewrite Hcur. by right; right.
    + apply chain_app. split; [done|]. unfold range_end. lia.
    + intros j Hj Hjb. rewrite covered_app. unfold covers, range_end.
      destruct (Hsplit j Hj Hjb) as [Hlo| ->].
      * rewrite Hcov by (done || lia). intuition lia.
      * rewrite Hne. split; [done|]. intros [[Hc|?]|?]; [|lia..].
        pose proof (covered_bounds _ _ _ _ Hwf Hch Hc). lia.
Qed.

Lemma loopInv_close :
  nonEmptyPage file i = true ->
  range_length cur + minPageSize = maxPageSize \/ i + minPageSize = blobSize ->
  loopInv file blobSize (i + minPageSize)
    {| range_offset := i + minPageSize; range_length := 0 |}
    (acc ++ [ {| range_offset := range_offset cur;
                 range_length := range_length cur + minPageSize |} ]).
Proof using Hb Hinv Hlt.
  intros Hne Hwhy. pose proof split_page as Hsplit. pose proof cur_offset_aligned as Hoff.
  destruct Hinv as [Hi Hbd Hcur Hlen Hal Hend Hwf Hcl Hch Hcov].
  pose proof (aligned_lt i blobSize Hi Hb Hlt) as Hnext.
  assert (aligned (i + minPageSize)) as Hai
    by (apply aligned_add; [done|apply aligned_minPageSize]).
  pose proof minPageSize_eq as Hmin. pose proof maxPageSize_eq as Hmax.
  assert (range_length cur + minPageSize <= maxPageSize) as Hceil.
  { destruct Hal as [k Hk]. lia. }
  constructor; cbn [range_offset range_length]; try done; try lia.
  - apply aligned_0.
  - apply Forall_app; split; [done|]. apply Forall_singleton.
    split; [done|]. cbn [range_offset range_length].
    split; [apply aligned_add; [done|apply aligned_minPageSize]|lia].
  - apply Forall_app; split; [done|]. apply Forall_singleton.
    unfold closed, range_end. cbn [range_offset range_length]. lia.
  - apply chain_app. split; [done|]. unfold range_end. cbn. lia.
  - intros j Hj Hjb. rewrite covered_app. unfold covers, range_end.
    cbn [range_offset range_length].
    destruct (Hsplit j Hj Hjb) as [Hlo| ->].
    + rewrite Hcov by (done || lia). intuition lia.
    + rewrite Hne. intuition lia.
Qed.

Lemma loopInv_extend :
  nonEmptyPage file i = true ->
  range_length cur + minPageSize <> maxPageSize -> i + minPageSize <> blobSize ->
  loopInv file blobSize (i + minPageSize)
    {| range_offset := range_offset cur;
       range_length := range_length cur + minPageSize |} acc.
Proof using Hb Hinv Hlt.
  intros Hne Hn1 Hn2. pose proof split_page as Hsplit.
  destruct Hinv as [Hi Hbd Hcur Hlen Hal Hend Hwf Hcl Hch Hcov].
  pose proof (aligned_lt i blobSize Hi Hb Hlt) as Hnext.
  assert (aligned (i + minPageSize)) as Hai
    by (apply aligned_add; [done|apply aligned_minPageSize]).
  pose proof minPageSize_eq as Hmin. pose proof maxPageSize_eq as Hmax.
  assert (range_length cur + minPageSize <= maxPageSize) as Hceil.
  { destruct Hal as [k Hk]. lia. }
  constructor; cbn [range_offset range_length]; try done; try lia.
  - apply aligned_add; [done|apply aligned_minPageSize].
  - intros j Hj Hjb. destruct (Hsplit j Hj Hjb) as [Hlo| ->].
    + by rewrite Hcov by (done || lia).
    + rewrite Hne. intuition lia.
Qed.
End loop_step.

Lemma splitLoop_spec file blobSize :
  aligned blobSize -> blobSize <= Int64.max_int - 4095 ->
  forall fuel i cur acc,
    loopInv file blobSize i cur acc ->
    blobSize - i <= Z.of_nat fuel * minPageSize ->
    loopAnswer file blobSize i (splitLoop fuel file blobSize i cur acc).
Proof.
  intros Hb Hmax. induction fuel as [|fuel IH]; intros i cur acc Hinv Hfuel.
  - pose proof (inv_bounds _ _ _ _ _ Hinv).
    rewrite splitLoop_exit by lia. simpl.
    assert (i = blobSize) as -> by lia.
    split; [|intros; lia]. by eapply loopInv_final.
  - destruct (Z.le_gt_cases blobSize i) as [Hle|Hlt].
    { pose proof (inv_bounds _ _ _ _ _ Hinv).
      rewrite splitLoop_exit by lia. simpl.
      assert (i = blobSize) as -> by lia.
      split; [|intros; lia]. by eapply loopInv_final. }
    rewrite splitLoop_step by done.
    pose proof (inv_i _ _ _ _ _ Hinv) as Hi.
    pose proof (inv_bounds _ _ _ _ _ Hinv) as Hbd.
    pose proof (inv_cur _ _ _ _ _ Hinv) as Hcur.
    pose proof (inv_len _ _ _ _ _ Hinv) as Hlen.
    destruct (pageErr file i) as [err|] eqn:Herr.
    { simpl. exists i, err. repeat split; try done; lia. }
    pose proof (aligned_lt i blobSize Hi Hb Hlt) as Hnext.
    pose proof minPageSize_eq as Hmin. pose proof maxPageSize_eq as Hmx.
    pose proof max_int_eq as Hmi. pose proof min_int_eq as Hmn.
    assert (Int64.add i minPageSize = i + minPageSize) as Hadd.
    { apply add_in_range. unfold Int64.in_range. lia. }
    assert (blobSize - (i + minPageSize) <= Z.of_nat fuel * minPageSize) as Hfuel' by lia.
    apply loopAnswer_step; [done..|].
    unfold resetRange. rewrite Hadd.
    destruct (nonEmptyPage file i) eqn:Hne; cbv zeta.
    + cbn [range_offset range_length].
      rewrite (add_in_range (range_length cur)) by (unfold Int64.in_range; lia).
      rewrite (add_in_range (range_offset cur)) by (unfold Int64.in_range; lia).
      replace (range_offset cur + (range_length cur + minPageSize))
        with (i + minPageSize) by lia.
      destruct (Z.eqb_spec (range_length cur + minPageSize) maxPageSize) as [E1|E1];
        destruct (Z.eqb_spec (i + minPageSize) blobSize) as [E2|E2]; cbn [orb];
        (apply IH; [|done]).
      * apply loopInv_close; auto.
      * apply loopInv_close; auto.
      * apply loopInv_close; auto.
      * apply loopInv_extend; auto.
    + apply IH; [|done]. by apply loopInv_empty.
Qed.

(** ** The scanner *)

Lemma aligned_le_max z : aligned z -> z <= Int64.max_int -> z <= Int64.max_int - 4095.
Proof. intros [k ->]. sizes. intros H. assert (k <= 2251799813685247) by lia. lia. Qed.

Lemma scanRanges_negative file fileSize :
  paddedBlobSize fileSize <= 0 -> scanRanges file fileSize = ScanOk [].
Proof. intros H. unfold scanRanges. by apply splitLoop_exit. Qed.

Lemma scanRanges_spec file fileSize :
  Int64.in_range fileSize -> 0 <= paddedBlobSize fileSize ->
  loopAnswer file (paddedBlobSize fileSize) 0 (scanRanges file fileSize).
Proof.
  intros Hr Hpos. destruct (paddedBlobSize_aligned fileSize Hr) as [Hal Hin].
  unfold scanRanges. apply splitLoop_spec; [done| | |].
  - apply aligned_le_max; [done|apply Hin].
  - constructor; cbn [range_offset range_length];
      try done; try lia; apply aligned_0.
  - destruct Hal as [k Hk]. rewrite Hk in *. sizes.
    rewrite Z.div_mul by lia. lia.
Qed.

(** The scan never runs out of fuel: the loop of the source terminates. *)
Lemma scanRanges_fuel file fileSize :
  Int64.in_range fileSize -> scanRanges file fileSize <> ScanFuel.
Proof.
  intros Hr. destruct (Z.le_gt_cases 0 (paddedBlobSize fileSize)) as [H|H].
  - pose proof (scanRanges_spec file fileSize Hr H) as Hs.
    by destruct (scanRanges file fileSize).
  - rewrite scanRanges_negative by lia. done.
Qed.

Lemma scanRanges_ok file fileSize rs :
  Int64.in_range fileSize -> scanRanges file fileSize = ScanOk rs ->
  (paddedBlobSize fileSize <= 0 /\ rs = []) \/
  (0 <= paddedBlobSize fileSize /\ scanned file (paddedBlobSize fileSize) rs).
Proof.
  intros Hr Hs. destruct (Z.le_gt_cases 0 (paddedBlobSize fileSize)) as [H|H].
  - right. split; [done|].
    pose proof (scanRanges_spec file fileSize Hr H) as Hl. rewrite Hs in Hl.
    by destruct Hl.
  - left. rewrite scanRanges_negative in Hs by lia. split; [lia|congruence].
Qed.

Lemma scanRanges_wf file fileSize rs :
  Int64.in_range fileSize -> scanRanges file fileSize = ScanOk rs ->
  Forall range_wf rs /\ chain 0 rs (Int64.max_int - 4095).
Proof.
  intros Hr Hs. destruct (paddedBlobSize_aligned fileSize Hr) as [[k Hk] Hin].
  destruct (scanRanges_ok _ _ _ Hr Hs) as [[_ ->]|[Hpos [Hwf _ Hch _]]].
  - split; [done|]. simpl. sizes. lia.
  - split; [done|]. eapply chain_weaken; [|done].
    apply aligned_le_max; [by exists k|apply Hin].
Qed.

Lemma pageOfRange_range file r :
  0 <= range_offset r -> 0 <= range_length r -> range_end r <= Int64.max_int ->
  rangeOfPage (pageOfRange file r) = r.
Proof.
  intros Ho Hl He. unfold range_end in He. destruct r as [o n]. simpl in *.
  unfold rangeOfPage, pageOfRange, io.Size, io.NewSectionReader. simpl.
  rewrite (sub_in_range Int64.max_int) by (unfold Int64.in_range; sizes; lia).
  destruct (Z.leb_spec o (Int64.max_int - n)); [|lia].
  rewrite (add_in_range n o) by (unfold Int64.in_range; sizes; lia).
  rewrite sub_in_range by (unfold Int64.in_range; sizes; lia).
  f_equal. lia.
Qed.

Lemma storageBlobPageSplit_ok file fileSize pageList :
  Int64.in_range fileSize -> storageBlobPageSplit file fileSize = ScanOk pageList ->
  exists rs, scanRanges file fileSize = ScanOk rs /\
    pageList = pageOfRange file <$> rs /\ rangeOfPage <$> pageList = rs.
Proof.
  intros Hr. unfold storageBlobPageSplit.
  destruct (scanRanges file fileSize) as [rs| |] eqn:Hs; [|done..].
  intros [= <-]. exists rs. split; [done|]. split; [done|].
  destruct (scanRanges_wf _ _ _ Hr Hs) as [Hwf Hch].
  rewrite <- list_fmap_compose. rewrite <- (list_fmap_id rs) at 2.
  apply list_fmap_ext. intros a r Ha. simpl.
  apply list_elem_of_lookup_2 in Ha.
  destruct (chain_bounds _ _ _ _ Hwf Hch Ha) as [H1 H2].
  rewrite Forall_forall in Hwf. destruct (Hwf r Ha) as (_ & _ & H3).
  apply pageOfRange_range; sizes; lia.
Qed.

(** ** Pages as the scanner reads them *)

Lemma bytes_Equal_eq a b : bytes_Equal a b = true <-> a = b.
Proof.
  revert b. induction a as [|x a IH]; intros [|y b]; simpl; try done.
  rewrite andb_true_iff, IH. split.
  - intros [H ->]. by apply Byte.byte_dec_bl in H as ->.
  - intros [= -> ->]. split; [by apply Byte.byte_dec_lb|done].
Qed.

Lemma hasNonZero_replicate n : ~ hasNonZero (replicate n x00).
Proof.
  intros (k & b & Hk & Hb). apply lookup_replicate in Hk as [-> _]. done.
Qed.

Lemma hasNonZero_or_zero buf : hasNonZero buf \/ buf = replicate (length buf) x00.
Proof.
  induction buf as [|b buf [IH|IH]]; simpl.
  - by right.
  - left. destruct IH as (k & b' & Hk & Hb). by exists (S k), b'.
  - destruct (Byte.byte_eq_dec b x00) as [->|Hb].
    + right. by rewrite <- IH.
    + left. by exists 0%nat, b.
Qed.

Lemma pageBuf_length file i : length (pageBuf file i) = Z.to_nat minPageSize.
Proof.
  unfold pageBuf, io.readInto. destruct (io.ReadAt file _ i) as [bs err].
  cbn [fst]. rewrite length_take, length_app, length_replicate. lia.
Qed.

(** The scanner's test [!bytes.Equal(pageBuf, emptyPage)] holds exactly
    of the pages that hold a byte other than zero. *)
Lemma nonEmptyPage_hasNonZero file i :
  nonEmptyPage file i = true <-> hasNonZero (pageBuf file i).
Proof.
  unfold nonEmptyPage. rewrite negb_true_iff, <- not_true_iff_false, bytes_Equal_eq.
  unfold emptyPage. split.
  - intros Hne. destruct (hasNonZero_or_zero (pageBuf file i)) as [H|H]; [done|].
    rewrite pageBuf_length in H. done.
  - intros H E. rewrite E in H. by apply hasNonZero_replicate in H.
Qed.

(** ** An exact cover *)

Lemma chain_tiling lo rs hi :
  aligned lo -> Forall range_wf rs -> chain lo rs hi ->
  (forall j, aligned j -> lo <= j < hi -> covered j rs) ->
  totalLength rs = hi - lo.
Proof.
  intros Hlo Hwf. revert lo Hlo.
  induction Hwf as [|r rs Hr Hwf IH]; simpl; intros lo Hlo Hch Hcov.
  - destruct (Z.eq_dec lo hi) as [->|Hne]; [lia|].
    destruct (covered_nil lo). apply Hcov; [done|lia].
  - destruct Hch as [H1 H2]. destruct Hr as (Ho & Hl & Hlen).
    pose proof (chain_le _ _ _ Hwf H2) as Hend. unfold range_end in *.
    assert (range_offset r = lo) as Hstart.
    { destruct (Hcov lo Hlo) as (r' & Hin & Hc); [lia|].
      unfold covers in Hc. apply elem_of_cons in Hin as [->|Hin]; [lia|].
      destruct (chain_bounds _ _ _ _ Hwf H2 Hin). unfold range_end in *. lia. }
    rewrite (IH (range_offset r + range_length r)); [lia| |done|].
    + by apply aligned_add.
    + intros j Hj Hjb. destruct (Hcov j Hj) as (r' & Hin & Hc); [lia|].
      apply elem_of_cons in Hin as [->|Hin]; [unfold covers, range_end in Hc; lia|].
      by exists r'.
Qed.

Lemma scanned_all_empty file blobSize rs :
  scanned file blobSize rs ->
  (forall j, aligned j -> 0 <= j < blobSize -> nonEmptyPage file j = false) ->
  rs = [].
Proof.
  intros [Hwf _ Hch Hcov] Hz. destruct rs as [|r rs]; [done|].
  assert (r ∈ r :: rs) as Hin by (apply elem_of_cons; by left).
  destruct (chain_bounds _ _ _ _ Hwf Hch Hin) as [H1 H2].
  rewrite Forall_forall in Hwf. destruct (Hwf r Hin) as (Ho & _ & Hlen).
  unfold range_end in H2.
  assert (nonEmptyPage file (range_offset r) = true) as Hne.
  { apply Hcov; [done|lia|]. exists r. split; [done|]. unfold covers, range_end. lia. }
  rewrite Hz in Hne; [done..|lia].
Qed.

Lemma scanned_all_nonEmpty file blobSize rs :
  0 <= blobSize ->
  scanned file blobSize rs ->
  (forall j, aligned j -> 0 <= j < blobSize -> nonEmptyPage file j = true) ->
  totalLength rs = blobSize /\
  forall (a : nat) r, rs !! a = Some r -> (S a < length rs)%nat ->
    range_length r = maxPageSize.
Proof.
  intros Hpos [Hwf Hcl Hch Hcov] Hnz. split.
  - rewrite (chain_tiling 0 rs blobSize); [lia|apply aligned_0|done..|].
    intros j Hj Hjb. apply Hcov; [done..|]. by apply Hnz.
  - intros a r Ha Hlast.
    destruct (lookup_lt_is_Some_2 rs (S a) Hlast) as [r' Hr'].
    pose proof (chain_lookup _ _ _ a (S a) r r' Hwf Hch Ha Hr' ltac:(lia)) as Hnext.
    apply list_elem_of_lookup_2 in Ha, Hr'.
    destruct (chain_bounds _ _ _ _ Hwf Hch Hr') as [_ Hhi].
    destruct (chain_bounds _ _ _ _ Hwf Hch Ha) as [Hlo _].
    rewrite Forall_forall in Hwf, Hcl.
    destruct (Hwf r' Hr') as (_ & _ & Hlen'). destruct (Hwf r Ha) as (Ho & Hl & Hlen).
    unfold range_end in *.
    destruct (Hcl r Ha) as [E|[E|E]]; [done|unfold range_end in E; lia|].
    rewrite Hnz in E; [done| |unfold range_end; lia].
    unfold range_end. by apply aligned_add.
Qed.

(** ** Files *)

Lemma bytes_Equal_refl a : bytes_Equal a a = true.
Proof. by apply bytes_Equal_eq. Qed.

Lemma bytes_Equal_padded (l : list byte) (n m : nat) :
  (length l <= n)%nat -> (n <= length l + m)%nat ->
  bytes_Equal (take n (l ++ replicate m x00)) (replicate n x00) = forallb isZeroByte l.
Proof.
  revert n. induction l as [|b l IH]; intros n Hl Hn; simpl in *.
  - rewrite take_replicate, Nat.min_l by lia. apply bytes_Equal_refl.
  - destruct n as [|n]; [lia|]. simpl. rewrite IH by lia. done.
Qed.

Lemma osFile_pageErr content i : 0 <= i -> pageErr (osFile content) i = None.
Proof.
  intros Hi. unfold pageErr, io.readInto, osFile. cbn [io.ReadAt].
  destruct (Z.ltb_spec i 0); [lia|]. cbn [snd].
  by destruct (_ <? _)%nat.
Qed.

Lemma osFile_nonEmptyPage content i :
  0 <= i ->
  nonEmptyPage (osFile content) i =
    negb (forallb isZeroByte
            (take (Z.to_nat minPageSize) (drop (Z.to_nat i) content))).
Proof.
  intros Hi. unfold nonEmptyPage, pageBuf, emptyPage, io.readInto, osFile.
  cbn [io.ReadAt]. destruct (Z.ltb_spec i 0); [lia|]. cbn [fst].
  rewrite bytes_Equal_padded; [done| |lia].
  rewrite length_take. lia.
Qed.

(** A file never makes the scan fail. *)
Lemma osFile_scan content fileSize :
  Int64.in_range fileSize ->
  exists rs, scanRanges (osFile content) fileSize = ScanOk rs.
Proof.
  intros Hr. destruct (Z.le_gt_cases 0 (paddedBlobSize fileSize)) as [H|H].
  - pose proof (scanRanges_spec (osFile content) fileSize Hr H) as Hs.
    destruct (scanRanges (osFile content) fileSize) as [rs|e|]; [by exists rs| |done].
    destruct Hs as (j & err & _ & _ & Hj & He & _).
    rewrite osFile_pageErr in He by lia. done.
  - exists []. apply scanRanges_negative. lia.
Qed.

(** ** The ranges the scanner returns *)

(** C3: for every source file and size, the ranges returned by the
    scanner have offsets that are multiples of the page unit and lengths
    that are positive and at most the maximum range size; no two of them
    overlap; and they are listed in strictly ascending order of offset. *)
Theorem storageBlobPageSplit_ranges file fileSize pageList :
  Int64.in_range fileSize ->
  storageBlobPageSplit file fileSize = ScanOk pageList ->
  (forall page, page ∈ pageList ->
     aligned (offset page) /\ 0 < io.Size (section page) <= maxPageSize) /\
  (forall (a b : nat) p1 p2,
     pageList !! a = Some p1 -> pageList !! b = Some p2 -> a <> b ->
     offset p1 + io.Size (section p1) <= offset p2 \/
     offset p2 + io.Size (section p2) <= offset p1) /\
  (forall (a b : nat) p1 p2,
     pageList !! a = Some p1 -> pageList !! b = Some p2 -> (a < b)%nat ->
     offset p1 < offset p2).
Proof.
  intros Hr Hs.
  destruct (storageBlobPageSplit_ok _ _ _ Hr Hs) as (rs & Hrs & _ & Hpl).
  destruct (scanRanges_wf _ _ _ Hr Hrs) as [Hwf Hch].
  assert (forall (a : nat) p, pageList !! a = Some p -> rs !! a = Some (rangeOfPage p))
    as Hlook.
  { intros a p Ha. rewrite <- Hpl, list_lookup_fmap, Ha. done. }
  assert (forall (a b : nat) p1 p2,
    pageList !! a = Some p1 -> pageList !! b = Some p2 -> (a < b)%nat ->
    offset p1 + io.Size (section p1) <= offset p2) as Hord.
  { intros a b p1 p2 Ha Hb Hab.
    apply (chain_lookup _ _ _ a b _ _ Hwf Hch (Hlook _ _ Ha) (Hlook _ _ Hb) Hab). }
  assert (forall page, page ∈ pageList ->
    aligned (offset page) /\ 0 < io.Size (section page) <= maxPageSize) as Hpage.
  { intros page Hin. apply list_elem_of_lookup_1 in Hin as [a Ha].
    apply Hlook, list_elem_of_lookup_2 in Ha.
    rewrite Forall_forall in Hwf. destruct (Hwf _ Ha) as (H1 & _ & H2). done. }
  split; [done|]. split.
  - intros a b p1 p2 Ha Hb Hab.
    destruct (Nat.lt_total a b) as [Hlt|[->|Hlt]]; [|done|].
    + left. eapply Hord; eauto.
    + right. eapply Hord; eauto.
  - intros a b p1 p2 Ha Hb Hab.
    pose proof (Hord _ _ _ _ Ha Hb Hab).
    apply list_elem_of_lookup_2 in Ha. destruct (Hpage _ Ha). lia.
Qed.

(** C2, as the code has it: for every source file and every size from 0
    up to 2^63 - 4096, the returned ranges are made of whole page units
    of the padded blob and cover exactly the page units that hold a byte
    other than zero; a file whose pages are all zero yields no range; a
    file whose pages all hold a byte other than zero yields ranges whose
    lengths add up to the padded blob size, each but the last of the
    maximum range size. *)
Theorem storageBlobPageSplit_cover file fileSize pageList :
  0 <= fileSize <= Int64.max_int - 4095 ->
  storageBlobPageSplit file fileSize = ScanOk pageList ->
  let blobSize := paddedBlobSize fileSize in
  let rs := rangeOfPage <$> pageList in
  (forall r, r ∈ rs ->
     aligned (range_offset r) /\ aligned (range_length r) /\
     0 <= range_offset r /\ range_end r <= blobSize) /\
  (forall j, aligned j -> 0 <= j < blobSize ->
     (hasNonZero (pageBuf file j) <-> covered j rs)) /\
  ((forall j, aligned j -> 0 <= j < blobSize -> ~ hasNonZero (pageBuf file j)) ->
   pageList = []) /\
  ((forall j, aligned j -> 0 <= j < blobSize -> hasNonZero (pageBuf file j)) ->
   totalLength rs = blobSize /\
   forall (a : nat) r, rs !! a = Some r -> (S a < length rs)%nat ->
     range_length r = maxPageSize).
Proof.
  intros Hsz Hs. cbv zeta.
  assert (Int64.in_range fileSize) as Hr by (unfold Int64.in_range; sizes; lia).
  destruct (storageBlobPageSplit_ok _ _ _ Hr Hs) as (rs & Hrs & Hpl & ->).
  destruct (paddedBlobSize_small fileSize) as (_ & Hpad & _); [sizes; lia|].
  destruct (scanRanges_ok _ _ _ Hr Hrs) as [[Hneg Hnil]|[Hpos Hsc]].
  { assert (paddedBlobSize fileSize = 0) as Hz by lia. rewrite Hnil.
    split; [intros r Hin; by apply elem_of_nil in Hin|].
    split; [intros; lia|]. split.
    - intros _. rewrite Hpl, Hnil. done.
    - intros _. split; [simpl; lia|]. intros a r Ha. done. }
  pose proof Hsc as [Hwf Hcl Hch Hcov].
  split.
  { intros r Hin. destruct (chain_bounds _ _ _ _ Hwf Hch Hin) as [H1 H2].
    rewrite Forall_forall in Hwf. destruct (Hwf r Hin) as (H3 & H4 & _). done. }
  split.
  { intros j Hj Hjb. rewrite <- nonEmptyPage_hasNonZero. by apply Hcov. }
  split.
  - intros Hz. rewrite Hpl.
    rewrite (scanned_all_empty _ _ _ Hsc); [done|].
    intros j Hj Hjb. apply not_true_iff_false.
    rewrite nonEmptyPage_hasNonZero. by apply Hz.
  - intros Hnz. apply (scanned_all_nonEmpty file); [done..|].
    intros j Hj Hjb. apply nonEmptyPage_hasNonZero. by apply Hnz.
Qed.

(** C8: when the read of a page fails with an error other than
    end-of-file, all pages before it having been read, the scan answers
    an error that carries the offset of that page and no range list; the
    coordinator hands the error on and leaves the log as it was: nothing
    is read for upload and nothing is written. *)
Theorem storageBlobPageSplit_read_failure file fileSize i err :
  Int64.in_range fileSize ->
  aligned i -> 0 <= i < paddedBlobSize fileSize ->
  snd (io.ReadAt file (Z.to_nat minPageSize) i) = Some err -> err <> IoEOF ->
  (forall k, aligned k -> 0 <= k < i ->
     readFailure (snd (io.ReadAt file (Z.to_nat minPageSize) k)) = None) ->
  storageBlobPageSplit file fileSize = ScanErr (ErrReadChunk i err) /\
  forall h sched sbu history,
    pageUploadFromSource h sched sbu history file fileSize =
      Returned (Some (ErrSplitting (Source sbu) (ErrReadChunk i err))) history.
Proof.
  intros Hr Hi Hib Herr Hne Hbefore.
  assert (forall k, pageErr file k
            = readFailure (snd (io.ReadAt file (Z.to_nat minPageSize) k))) as Hpe.
  { intros k. unfold pageErr, io.readInto. by destruct (io.ReadAt file _ k). }
  assert (pageErr file i = Some err) as Hfail.
  { rewrite Hpe, Herr. by destruct err. }
  assert (scanRanges file fileSize = ScanErr (ErrReadChunk i err)) as Hscan.
  { pose proof (scanRanges_spec file fileSize Hr ltac:(lia)) as Hs.
    destruct (scanRanges file fileSize) as [rs|e|]; simpl in Hs; [| |done].
    - destruct Hs as [_ Hall]. rewrite Hall in Hfail; [done..|lia].
    - destruct Hs as (j & err' & -> & Hj & Hjb & Hje & Hk).
      destruct (Z.lt_trichotomy j i) as [Hlt|[->|Hlt]].
      + rewrite Hpe, Hbefore in Hje; [done..|lia].
      + congruence.
      + rewrite Hk in Hfail; [done..|lia]. }
  assert (storageBlobPageSplit file fileSize = ScanErr (ErrReadChunk i err)) as Hsplit.
  { unfold storageBlobPageSplit. by rewrite Hscan. }
  split; [done|]. intros h sched sbu history.
  unfold pageUploadFromSource. by rewrite Hsplit.
Qed.

(** ** The scenario of the specification *)

Lemma osFile_nonEmptyPage_bytes content i :
  0 <= i ->
  nonEmptyPage (osFile content) i = negb (forallb isZeroByte (pageBytes content i)).
Proof. apply osFile_nonEmptyPage. Qed.

Lemma forallb_nonZero (l : list byte) :
  l <> [] -> forallb isNonZeroByte l = true -> forallb isZeroByte l = false.
Proof.
  destruct l as [|b l]; [done|]. intros _. simpl. unfold isNonZeroByte.
  intros [H _]%andb_true_iff. apply negb_true_iff in H. by rewrite H.
Qed.

Lemma pageBytes_nonempty content i :
  0 <= i < Z.of_nat (length content) -> pageBytes content i <> [].
Proof.
  intros Hi Hnil. apply (f_equal length) in Hnil. unfold pageBytes in Hnil.
  rewrite length_take, length_drop in Hnil. cbn [length] in Hnil.
  pose proof minPageSize_eq. lia.
Qed.

Section scan_steps.
Context (fuel : nat) (file : io.ReaderAt) (blobSize i i' : Z).
Context (cur : byteRange) (acc : list byteRange).
Hypothesis Hlt : i < blobSize.
Hypothesis Herr : pageErr file i = None.
Hypothesis Hi' : i' = i + minPageSize.
Hypothesis Hr : Int64.in_range i'.

Lemma splitLoop_empty :
  nonEmptyPage file i = false ->
  splitLoop (S fuel) file blobSize i cur acc =
    splitLoop fuel file blobSize i' {| range_offset := i'; range_length := 0 |}
      (if range_length cur =? 0 then acc else acc ++ [cur]).
Proof using Hlt Herr Hi' Hr.
  intros Hne. rewrite splitLoop_step, Herr, Hne by done.
  unfold resetRange. rewrite add_in_range, <- Hi' by (by rewrite <- Hi').
  by destruct (range_length cur =? 0).
Qed.

Section nonEmpty.
Context (len' : Z).
Hypothesis Hne : nonEmptyPage file i = true.
Hypothesis Hlen' : len' = range_length cur + minPageSize.
Hypothesis Hrl : Int64.in_range len'.
Hypothesis Hre : Int64.in_range (range_offset cur + len').

Lemma splitLoop_close :
  len' = maxPageSize \/ range_offset cur + len' = blobSize ->
  splitLoop (S fuel) file blobSize i cur acc =
    splitLoop fuel file blobSize i' {| range_offset := i'; range_length := 0 |}
      (acc ++ [ {| range_offset := range_offset cur; range_length := len' |} ]).
Proof using Hlt Herr Hi' Hr Hne Hlen' Hrl Hre.
  intros Hwhy. rewrite splitLoop_step, Herr, Hne by done. cbv zeta.
  cbn [range_offset range_length]. unfold resetRange.
  rewrite (add_in_range i), <- Hi' by (by rewrite <- Hi').
  rewrite (add_in_range (range_length cur)), <- Hlen' by (by rewrite <- Hlen').
  rewrite add_in_range by done.
  destruct (Z.eqb_spec len' maxPageSize);
    destruct (Z.eqb_spec (range_offset cur + len') blobSize); try done.
  by destruct Hwhy.
Qed.

Lemma splitLoop_extend :
  len' <> maxPageSize -> range_offset cur + len' <> blobSize ->
  splitLoop (S fuel) file blobSize i cur acc =
    splitLoop fuel file blobSize i'
      {| range_offset := range_offset cur; range_length := len' |} acc.
Proof using Hlt Herr Hi' Hr Hne Hlen' Hrl Hre.
  intros Hn1 Hn2. rewrite splitLoop_step, Herr, Hne by done. cbv zeta.
  cbn [range_offset range_length]. unfold resetRange.
  rewrite (add_in_range i), <- Hi' by (by rewrite <- Hi').
  rewrite (add_in_range (range_length cur)), <- Hlen' by (by rewrite <- Hlen').
  rewrite add_in_range by done.
  destruct (Z.eqb_spec len' maxPageSize);
    destruct (Z.eqb_spec (range_offset cur + len') blobSize); done.
Qed.
End nonEmpty.
End scan_steps.

Ltac scenario_side :=
  first [ by apply osFile_pageErr | done | lia | by split | by right ].

(** C6: a file of 10,000 bytes whose bytes in [4096,8191] are all zero
    and whose other bytes are all other than zero is padded to 12,288
    bytes and split into exactly the two ranges (0, 4096) and
    (8192, 4096). *)
Theorem storageBlobPageSplit_scenario content :
  Z.of_nat (length content) = 10000 ->
  forallb isNonZeroByte (pageBytes content 0) = true ->
  forallb isZeroByte (pageBytes content 4096) = true ->
  forallb isNonZeroByte (pageBytes content 8192) = true ->
  paddedBlobSize 10000 = 12288 /\
  storageBlobPageSplit (osFile content) 10000 =
    ScanOk (pageOfRange (osFile content) <$>
              [ {| range_offset := 0; range_length := 4096 |};
                {| range_offset := 8192; range_length := 4096 |} ]) /\
  rangeOfPage <$> (pageOfRange (osFile content) <$>
              [ {| range_offset := 0; range_length := 4096 |};
                {| range_offset := 8192; range_length := 4096 |} ])
  = [ {| range_offset := 0; range_length := 4096 |};
      {| range_offset := 8192; range_length := 4096 |} ].
Proof.
  intros Hlen H0 H1 H2.
  assert (nonEmptyPage (osFile content) 0 = true) as N0.
  { rewrite osFile_nonEmptyPage_bytes by lia.
    rewrite forallb_nonZero; [done| |done]. apply pageBytes_nonempty. lia. }
  assert (nonEmptyPage (osFile content) 4096 = false) as N1.
  { rewrite osFile_nonEmptyPage_bytes by lia. by rewrite H1. }
  assert (nonEmptyPage (osFile content) 8192 = true) as N2.
  { rewrite osFile_nonEmptyPage_bytes by lia.
    rewrite forallb_nonZero; [done| |done]. apply pageBytes_nonempty. lia. }
  split; [reflexivity|]. split; [|reflexivity].
  unfold storageBlobPageSplit, scanRanges.
  change (paddedBlobSize 10000) with 12288.
  change (Z.to_nat (12288 / minPageSize)) with 3%nat.
  rewrite splitLoop_extend with (i' := 4096) (len' := 4096) by scenario_side.
  cbn [range_offset].
  rewrite splitLoop_empty with (i' := 8192) by scenario_side.
  cbn [range_length]. change (4096 =? 0) with false. cbn [app].
  rewrite splitLoop_close with (i' := 12288) (len' := 4096) by scenario_side.
  rewrite splitLoop_exit by lia. reflexivity.
Qed.

(** ** The worker pool *)

Lemma total_app f l1 l2 : total f (l1 ++ l2) = total f l1 + total f l2.
Proof. induction l1 as [|w l1 IH]; simpl; [done|]. rewrite IH. lia. Qed.

Lemma workers_split (ws : list worker) (w : nat) old :
  ws !! w = Some old ->
  exists l1 l2, ws = l1 ++ old :: l2 /\
    forall st, <[w := st]> ws = l1 ++ st :: l2.
Proof.
  intros Hw. exists (take w ws), (drop (S w) ws). split.
  - by rewrite take_drop_middle.
  - intros st. apply insert_take_drop. by eapply lookup_lt_Some.
Qed.

Lemma Read_length s n : length (fst (io.Read s n)) = n.
Proof.
  unfold io.Read. destruct (_ <=? _).
  - simpl. apply length_replicate.
  - destruct (io.ReadAt _ _ _) as [bs err]. cbn [fst].
    rewrite length_take, length_app, length_replicate. lia.
Qed.

Lemma attempted_app l1 l2 : attempted (l1 ++ l2) = attempted l1 ++ attempted l2.
Proof. apply omap_app. Qed.

Lemma failures_app sbu l1 l2 :
  failures sbu (l1 ++ l2) = failures sbu l1 ++ failures sbu l2.
Proof. apply omap_app. Qed.

Lemma failedReads_app l1 l2 : failedReads (l1 ++ l2) = failedReads l1 ++ failedReads l2.
Proof. apply omap_app. Qed.

Lemma remoteCalls_app l1 l2 : remoteCalls (l1 ++ l2) = remoteCalls l1 ++ remoteCalls l2.
Proof. apply omap_app. Qed.

Lemma total_cons f w l : total f (w :: l) = f w + total f l.
Proof. done. Qed.

Lemma total_replicate f n w : f w = 0 -> total f (replicate n w) = 0.
Proof. intros H. induction n as [|n IH]; simpl; [done|]. rewrite H, IH. done. Qed.

Lemma bind_replicate_nil {A} (f : worker -> list A) n w :
  f w = [] -> replicate n w ≫= f = [].
Proof.
  intros H. induction n as [|n IH]; [done|].
  change (replicate (S n) w) with (w :: replicate n w).
  by rewrite bind_cons, H, IH.
Qed.

Section pool_invariant.
Context (sbu : BlobUpload) (blobSize : Z) (pageList : list storageBlobPage).
Context (history : list event).

Local Abbreviation Inv := (poolInv sbu blobSize pageList history).

Ltac pool_goal :=
  constructor;
  cbn [pages errors errorsCap wg workers log panicked
       setWorker setPages sendError wgDone record panic];
  match goal with
  | H : forall st, <[_ := st]> _ = _ |- _ => rewrite ?H
  end;
  match goal with
  | H : workers _ = _ |- _ => rewrite ?H
  end;
  match goal with
  | H : pages _ = _ |- _ => rewrite ?H
  | _ => idtac
  end;
  rewrite ?total_app, ?total_cons, ?bind_app, ?bind_cons,
    ?attempted_app, ?failures_app, ?remoteCalls_app, ?failedReads_app,
    ?length_app, ?app_nil_r;
  cbn [inflight unsent holding pending writing app length attempted failures
       remoteCalls failedReads omap list_omap failure] in *.

Ltac pool_field :=
  first
    [ done
    | lia
    | match goal with
      | H : log _ = _ |- _ = _ => by rewrite H, app_assoc
      | H : ?l ≡ₚ _ |- ?l ≡ₚ _ => rewrite H; solve_Permutation
      | H : ?l ≡ₚ _ |- ?l ++ _ ≡ₚ _ => rewrite H; solve_Permutation
      | H : forall st', writingOk _ _ st' -> _ |- Forall _ _ => by apply H
      | H : forall st', st' <> Exited -> _ |- _ -> _ ∉ _ => intros ?; by apply H
      | H : forall st', st' <> Exited -> _ |- _ ∉ _ => by apply H
      | |- Forall _ (_ ++ [_]) =>
          apply Forall_app; split; [done|]; apply Forall_singleton; cbn; eauto 10
      end ].

Lemma launch_inv workerCount : Inv (launch pageList workerCount history) [].
Proof.
  constructor; simpl.
  - by rewrite app_nil_r.
  - done.
  - rewrite total_replicate by done. lia.
  - rewrite total_replicate by done. lia.
  - rewrite bind_replicate_nil by done. by rewrite !app_nil_r.
  - by rewrite bind_replicate_nil.
  - by rewrite total_replicate.
  - by apply Forall_replicate.
  - done.
  - intros _ Hin. by apply elem_of_replicate in Hin as [? _].
Qed.

Lemma worker_step_inv w p p' new :
  Inv p new -> blobPageUploadWorker sbu blobSize w p = Some p' ->
  exists added, Inv p' (new ++ added).
Proof.
  intros [Hlog Hcap Hwg Hroom Hpages Herrs Hwrites Hwr Hev Hex].
  unfold blobPageUploadWorker. destruct (panicked p) eqn:Hpan; [done|].
  destruct (workers p !! w) as [st|] eqn:Hw; [|done].
  destruct (workers_split _ _ _ Hw) as (l1 & l2 & Hws & Hins).
  rewrite Hws in Hwg, Hroom, Hpages, Herrs, Hwrites, Hwr, Hex.
  rewrite total_app, total_cons in Hwg. rewrite total_app, total_cons in Hroom.
  rewrite total_app, total_cons in Hwrites.
  rewrite bind_app, bind_cons in Hpages. rewrite bind_app, bind_cons in Herrs.
  apply Forall_app in Hwr as [Hwr1 Hwr2]. apply Forall_cons in Hwr2 as [Hst Hwr2].
  assert (forall st', writingOk blobSize pageList st' ->
            Forall (writingOk blobSize pageList) (l1 ++ st' :: l2)) as Hwr'.
  { intros st' Hst'. apply Forall_app. split; [done|]. by apply Forall_cons. }
  assert (forall st', st' <> Exited -> pages p <> [] -> Exited ∉ l1 ++ st' :: l2)
    as Hex'.
  { intros st' Hst' Hq Hin. apply Hex; [done|].
    apply elem_of_app in Hin as [Hin|Hin]; apply elem_of_app; [by left|right].
    apply elem_of_cons in Hin as [?|Hin]; [done|]. apply elem_of_cons. by right. }
  destruct st as [|page|page start end_ chunk|err| |];
    cbn [inflight unsent holding pending writing app] in *.
  - (* Receiving *)
    destruct (pages p) as [|page rest] eqn:Hq; intros [= <-]; exists [];
      pool_goal; pool_field.
  - (* Reading *)
    assert (page ∈ pageList) as Hin.
    { rewrite Hpages. apply elem_of_app. right. apply elem_of_app. left.
      apply elem_of_app. right. apply elem_of_cons. by left. }
    destruct (transmitBounds blobSize page) as [[start end_] size] eqn:Hb.
    destruct (Z.ltb_spec size 0) as [Hsz|Hsz].
    { intros [= <-]. exists []. pool_goal; pool_field. }
    pose proof (Read_length (section page) (Z.to_nat size)) as Hlen.
    destruct (io.Read (section page) (Z.to_nat size)) as [chunk err].
    cbn [fst] in Hlen.
    destruct (readFailure err) as [err'|]; intros [= <-].
    + exists [SectionRead page (Some err')]. pool_goal; pool_field.
    + exists [SectionRead page None]. pool_goal; try pool_field.
      apply Hwr'. split; [done|]. rewrite Hb, Hlen. do 2 f_equal. lia.
  - (* Writing *)
    destruct Hst as [Hin Hb].
    assert (start = offset page) as Hstart.
    { unfold transmitBounds in Hb. congruence. }
    destruct (respond _ _ _) as [err|]; intros [= <-].
    + exists [Remote (PutPageUpdate (AccountName sbu) (ContainerName sbu)
                        (BlobName sbu) start end_ chunk) (Some err)].
      rewrite <- Hstart. pool_goal; pool_field.
    + exists [Remote (PutPageUpdate (AccountName sbu) (ContainerName sbu)
                        (BlobName sbu) start end_ chunk) None].
      pool_goal; pool_field.
  - (* Reporting *)
    destruct (_ <? _)%nat; intros [= <-]. exists []. pool_goal; pool_field.
  - (* Finishing *)
    destruct (Z.ltb_spec (wg p - 1) 0) as [Hneg|Hneg]; intros [= <-];
      exists []; pool_goal; pool_field.
  - done.
Qed.
End pool_invariant.

Section pool_runs.
Context (sbu : BlobUpload) (blobSize : Z) (pageList : list storageBlobPage).
Context (history : list event).

Local Abbreviation Inv := (poolInv sbu blobSize pageList history).
Local Abbreviation step := (blobPageUploadWorker sbu blobSize).

Lemma run_inv sched p new :
  Inv p new -> exists added, Inv (run sbu blobSize sched p) (new ++ added).
Proof.
  revert p new. induction sched as [|w sched IH]; intros p new Hinv; simpl.
  - exists []. by rewrite app_nil_r.
  - destruct (wg p =? 0); [exists []; by rewrite app_nil_r|].
    destruct (step w p) as [p'|] eqn:Hstep; [|by apply IH].
    destruct (worker_step_inv _ _ _ _ _ _ _ _ Hinv Hstep) as [a1 H1].
    destruct (IH _ _ H1) as [a2 H2]. exists (a1 ++ a2). by rewrite app_assoc.
Qed.

Lemma total_nonneg f ws : (forall w, 0 <= f w) -> 0 <= total f ws.
Proof.
  intros Hf. induction ws as [|w ws IH]; simpl; [done|]. specialize (Hf w). lia.
Qed.

Lemma total_zero f ws w :
  (forall w, 0 <= f w) -> total f ws = 0 -> w ∈ ws -> f w = 0.
Proof.
  intros Hf. induction ws as [|w' ws IH]; simpl; intros Hz Hin.
  - by apply elem_of_nil in Hin.
  - pose proof (total_nonneg f ws Hf). pose proof (Hf w').
    apply elem_of_cons in Hin as [->|Hin]; [lia|]. apply IH; [lia|done].
Qed.

Lemma inflight_nonneg w : 0 <= inflight w.
Proof. by destruct w. Qed.

Lemma bind_nil_inflight {A} (f : worker -> list A) ws :
  (forall w, inflight w = 0 -> f w = []) -> total inflight ws = 0 -> ws ≫= f = [].
Proof.
  intros Hf. induction ws as [|w ws IH]; intros Hz; [done|].
  rewrite total_cons in Hz. pose proof (inflight_nonneg w).
  pose proof (total_nonneg inflight ws inflight_nonneg).
  rewrite bind_cons, Hf, IH by lia. done.
Qed.

Lemma total_zero_inflight f ws :
  (forall w, inflight w = 0 -> f w = 0) -> total inflight ws = 0 -> total f ws = 0.
Proof.
  intros Hf. induction ws as [|w ws IH]; intros Hz; [done|].
  rewrite total_cons in *. pose proof (inflight_nonneg w).
  pose proof (total_nonneg inflight ws inflight_nonneg).
  rewrite Hf, IH by lia. done.
Qed.

(** When the counter of the wait group is zero every page has been read
    for upload once, every failure is in the [errors] channel, and every
    page read without failure has had its write. *)
Lemma poolInv_done p new :
  Inv p new -> wg p = 0 ->
  attempted new ≡ₚ pageList /\
  errors p ≡ₚ failures sbu new /\
  (length (remoteCalls new) + length (failedReads new) = length pageList)%nat.
Proof.
  intros [Hlog Hcap Hwg Hroom Hpages Herrs Hwrites Hwr Hev Hex] Hz.
  pose proof (total_nonneg inflight (workers p) inflight_nonneg) as Hnn.
  assert (total inflight (workers p) = 0) as Hfl by lia.
  assert (pages p = []) as Hq by (apply length_zero_iff_nil; lia).
  rewrite Hq in Hpages.
  rewrite (bind_nil_inflight holding) in Hpages; [|by intros []|done].
  rewrite (bind_nil_inflight pending) in Herrs; [|by intros []|done].
  rewrite (total_zero_inflight writing) in Hwrites; [|by intros []|done].
  rewrite app_nil_r in Herrs. simpl in Hpages.
  split; [done|]. split; [done|].
  rewrite Hpages. lia.
Qed.

(** ** No panic *)

Hypothesis sizes_ok :
  forall page, page ∈ pageList -> 0 <= (transmitBounds blobSize page).2.

Lemma worker_step_no_panic w p p' new :
  Inv p new -> step w p = Some p' -> panicked p' = false.
Proof using sizes_ok.
  intros Hinv. pose proof Hinv as [Hlog Hcap Hwg Hroom Hpages Herrs Hwrites Hwr Hev Hex].
  unfold blobPageUploadWorker. destruct (panicked p) eqn:Hpan; [done|].
  destruct (workers p !! w) as [st|] eqn:Hw; [|done].
  destruct (workers_split _ _ _ Hw) as (l1 & l2 & Hws & Hins).
  rewrite Hws in Hwg, Hpages. rewrite total_app, total_cons in Hwg.
  rewrite bind_app, bind_cons in Hpages.
  pose proof (total_nonneg inflight l1 inflight_nonneg).
  pose proof (total_nonneg inflight l2 inflight_nonneg).
  destruct st as [|page|page start end_ chunk|err| |].
  - destruct (pages p); by intros [= <-].
  - assert (page ∈ pageList) as Hin.
    { rewrite Hpages. apply elem_of_app. right. apply elem_of_app. left.
      apply elem_of_app. right. apply elem_of_cons. by left. }
    specialize (sizes_ok page Hin).
    destruct (transmitBounds blobSize page) as [[start end_] size].
    cbn [snd] in sizes_ok.
    destruct (Z.ltb_spec size 0); [lia|].
    destruct (io.Read _ _) as [chunk err].
    destruct (readFailure err); by intros [= <-].
  - destruct (respond _ _ _); by intros [= <-].
  - destruct (_ <? _)%nat; by intros [= <-].
  - cbn [inflight] in Hwg.
    destruct (Z.ltb_spec (wg p - 1) 0); [lia|]. by intros [= <-].
  - done.
Qed.

Lemma run_no_panic sched p new :
  Inv p new -> panicked p = false -> panicked (run sbu blobSize sched p) = false.
Proof using sizes_ok.
  revert p new. induction sched as [|w sched IH]; intros p new Hinv Hpan; simpl.
  - done.
  - destruct (wg p =? 0); [done|].
    destruct (step w p) as [p'|] eqn:Hstep; [|by eapply IH].
    destruct (worker_step_inv _ _ _ _ _ _ _ _ Hinv Hstep) as [a1 H1].
    eapply IH; [exact H1|]. exact (worker_step_no_panic _ _ _ _ Hinv Hstep).
Qed.
End pool_runs.

(** ** Progress of the pool *)

Section pool_progress.
Context (sbu : BlobUpload) (blobSize : Z) (pageList : list storageBlobPage).
Context (history : list event).

Local Abbreviation Inv := (poolInv sbu blobSize pageList history).
Local Abbreviation step := (blobPageUploadWorker sbu blobSize).

Lemma weight_nonneg w : 0 <= weight w.
Proof. by destruct w. Qed.

Lemma measure_nonneg p : 0 <= measure p.
Proof.
  unfold measure. pose proof (total_nonneg weight (workers p) weight_nonneg).
  destruct (panicked p); lia.
Qed.

Lemma worker_step_workers w p p' :
  step w p = Some p' -> length (workers p') = length (workers p).
Proof.
  unfold blobPageUploadWorker. destruct (panicked p); [done|].
  destruct (workers p !! w) as [[|page|page start end_ chunk|err| |]|]; try done.
  - destruct (pages p); intros [= <-]; apply length_insert.
  - destruct (transmitBounds blobSize page) as [[start end_] size].
    destruct (size <? 0); [by intros [= <-]|].
    destruct (io.Read _ _) as [chunk err].
    destruct (readFailure err); intros [= <-]; apply length_insert.
  - destruct (respond _ _ _); intros [= <-]; apply length_insert.
  - destruct (_ <? _)%nat; intros [= <-]. apply length_insert.
  - destruct (_ <? 0); intros [= <-]; [done|]. apply length_insert.
Qed.

(** Every step of a worker brings the pool nearer to rest. *)
Lemma worker_step_measure w p p' : step w p = Some p' -> measure p' < measure p.
Proof.
  unfold blobPageUploadWorker, measure. destruct (panicked p) eqn:Hpan; [done|].
  destruct (workers p !! w) as [st|] eqn:Hw; [|done].
  destruct (workers_split _ _ _ Hw) as (l1 & l2 & Hws & Hins).
  rewrite Hws, total_app, total_cons.
  destruct st as [|page|page start end_ chunk|err| |].
  - destruct (pages p) as [|page rest] eqn:Hq; intros [= <-]; simpl;
      rewrite Hins, Hpan, ?Hq, total_app, total_cons; simpl length; simpl; lia.
  - destruct (transmitBounds blobSize page) as [[start end_] size].
    destruct (size <? 0).
    { intros [= <-]. simpl. rewrite Hws, total_app, total_cons. simpl. lia. }
    destruct (io.Read _ _) as [chunk err].
    destruct (readFailure err); intros [= <-]; simpl;
      rewrite Hins, Hpan, total_app, total_cons; simpl; lia.
  - destruct (respond _ _ _); intros [= <-]; simpl;
      rewrite Hins, Hpan, total_app, total_cons; simpl; lia.
  - destruct (_ <? _)%nat; intros [= <-]. simpl.
    rewrite Hins, Hpan, total_app, total_cons; simpl; lia.
  - destruct (_ <? 0); intros [= <-]; simpl.
    + rewrite Hws, total_app, total_cons. simpl. lia.
    + rewrite Hins, Hpan, total_app, total_cons; simpl; lia.
  - done.
Qed.

Lemma run_done sched p : wg p = 0 -> run sbu blobSize sched p = p.
Proof. intros H. destruct sched; simpl; [done|]. by rewrite H. Qed.

Lemma run_app s1 s2 p :
  run sbu blobSize (s1 ++ s2) p = run sbu blobSize s2 (run sbu blobSize s1 p).
Proof.
  revert p. induction s1 as [|w s1 IH]; intros p; simpl; [done|].
  destruct (Z.eqb_spec (wg p) 0) as [Hz|Hz]; [by rewrite run_done|].
  destruct (step w p); apply IH.
Qed.

Lemma run_measure sched p : measure (run sbu blobSize sched p) <= measure p.
Proof.
  revert p. induction sched as [|w sched IH]; intros p; simpl; [lia|].
  destruct (wg p =? 0); [lia|].
  destruct (step w p) as [p'|] eqn:Hstep; [|apply IH].
  apply worker_step_measure in Hstep. specialize (IH p'). lia.
Qed.

Lemma run_workers sched p :
  length (workers (run sbu blobSize sched p)) = length (workers p).
Proof.
  revert p. induction sched as [|w sched IH]; intros p; simpl; [done|].
  destruct (wg p =? 0); [done|].
  destruct (step w p) as [p'|] eqn:Hstep; [|apply IH].
  rewrite IH. by eapply worker_step_workers.
Qed.

(** A schedule that names a worker able to step brings the pool nearer
    to rest. *)
Lemma run_progress sched p w :
  wg p <> 0 -> w ∈ sched -> is_Some (step w p) ->
  measure (run sbu blobSize sched p) < measure p.
Proof.
  induction sched as [|w' sched IH]; intros Hz Hin Hw.
  - by apply elem_of_nil in Hin.
  - simpl. destruct (Z.eqb_spec (wg p) 0); [done|].
    destruct (step w' p) as [p'|] eqn:Hstep.
    + apply worker_step_measure in Hstep.
      pose proof (run_measure sched p'). lia.
    + apply elem_of_cons in Hin as [->|Hin].
      * rewrite Hstep in Hw. by destruct Hw.
      * by apply IH.
Qed.

Lemma total_pos f ws :
  (forall w, 0 <= f w) -> total f ws <> 0 ->
  exists (i : nat) w, ws !! i = Some w /\ f w <> 0.
Proof.
  intros Hf. induction ws as [|w ws IH]; simpl; [done|]. intros Hne.
  destruct (Z.eq_dec (f w) 0) as [E|E].
  - destruct IH as (i & w' & Hi & Hw'); [lia|]. by exists (S i), w'.
  - by exists 0%nat, w.
Qed.

(** No deadlock: while the counter of the wait group is not zero, a
    pool with a worker has a worker that can step. *)
Lemma pool_progress p new :
  Inv p new -> panicked p = false -> wg p <> 0 -> workers p <> [] ->
  exists w, (w < length (workers p))%nat /\ is_Some (step w p).
Proof.
  intros [Hlog Hcap Hwg Hroom Hpages Herrs Hwrites Hwr Hev Hex] Hpan Hz Hne.
  destruct (Z.eq_dec (total inflight (workers p)) 0) as [Hfl|Hfl].
  - assert (pages p <> []) as Hq.
    { intros Hq. rewrite Hq in Hwg. simpl in Hwg. lia. }
    destruct (workers p) as [|st ws] eqn:Hws; [done|].
    exists 0%nat. split; [simpl; lia|].
    unfold blobPageUploadWorker. rewrite Hpan, Hws. cbn [lookup list_lookup].
    assert (inflight st = 0) as Hst.
    { apply (total_zero inflight (st :: ws)); [apply inflight_nonneg|done|].
      apply elem_of_cons. by left. }
    assert (st <> Exited) as Hnx.
    { intros ->. apply (Hex Hq). apply elem_of_cons. by left. }
    destruct st; try done. by destruct (pages p).
  - destruct (total_pos inflight (workers p) inflight_nonneg Hfl) as (i & st & Hi & Hst).
    exists i. split; [by eapply lookup_lt_Some|].
    unfold blobPageUploadWorker. rewrite Hpan, Hi.
    destruct st as [|page|page start end_ chunk|err| |]; try done.
    + destruct (transmitBounds blobSize page) as [[start end_] size].
      destruct (size <? 0); [done|]. destruct (io.Read _ _) as [chunk err].
      by destruct (readFailure err).
    + by destruct (respond _ _ _).
    + destruct (workers_split _ _ _ Hi) as (l1 & l2 & Hws & _).
      rewrite Hws, total_app, total_cons in Hroom. cbn [unsent] in Hroom.
      pose proof (total_nonneg unsent l1 ltac:(by intros [])).
      pose proof (total_nonneg unsent l2 ltac:(by intros [])).
      destruct (Nat.ltb_spec (length (errors p)) (errorsCap p)); [done|]. lia.
    + by destruct (_ <? 0).
Qed.

Hypothesis sizes_ok :
  forall page, page ∈ pageList -> 0 <= (transmitBounds blobSize page).2.

(** Under the round-robin schedule the wait comes to an end. *)
Lemma roundRobin_done k p new :
  Inv p new -> panicked p = false -> workers p <> [] ->
  measure p <= Z.of_nat k ->
  wg (run sbu blobSize (roundRobin (length (workers p)) k) p) = 0.
Proof using sizes_ok.
  revert p new. induction k as [|k IH]; intros p new Hinv Hpan Hne Hm.
  - unfold measure in Hm. rewrite Hpan in Hm.
    pose proof (total_nonneg weight (workers p) weight_nonneg). lia.
  - destruct (Z.eq_dec (wg p) 0) as [Hz|Hz]; [by rewrite run_done|].
    unfold roundRobin. cbn [replicate mjoin list_join]. rewrite run_app.
    set (p1 := run sbu blobSize (seq 0 (length (workers p))) p).
    destruct (pool_progress p new Hinv Hpan Hz Hne) as (w & Hw & Hstep).
    assert (measure p1 < measure p) as Hlt.
    { apply (run_progress _ _ w); [done| |done]. apply elem_of_seq. lia. }
    destruct (run_inv sbu blobSize pageList history
                (seq 0 (length (workers p))) p new Hinv) as [added Hinv1].
    fold p1 in Hinv1.
    assert (length (workers p1) = length (workers p)) as Hlen by apply run_workers.
    rewrite <- Hlen. apply (IH p1 (new ++ added)); [done| | |lia].
    + by eapply run_no_panic.
    + intros Hnil. rewrite Hnil in Hlen. destruct (workers p); [done|]. done.
Qed.
End pool_progress.

(** ** What a worker transmits *)

Lemma scanned_page file fileSize pageList page :
  Int64.in_range fileSize ->
  storageBlobPageSplit file fileSize = ScanOk pageList ->
  page ∈ pageList ->
  aligned (offset page) /\ 0 <= offset page /\
  aligned (io.Size (section page)) /\ 0 < io.Size (section page) <= maxPageSize /\
  offset page + io.Size (section page) <= paddedBlobSize fileSize /\
  Int64.min_int <= fileSize <= Int64.max_int - 4095.
Proof.
  intros Hr Hs Hin.
  destruct (storageBlobPageSplit_ok _ _ _ Hr Hs) as (rs & Hrs & _ & Hpl).
  assert (rangeOfPage page ∈ rs) as Hin'.
  { rewrite <- Hpl. by apply list_elem_of_fmap_2. }
  destruct (scanRanges_ok _ _ _ Hr Hrs) as [[_ ->]|[Hpos [Hwf _ Hch _]]].
  { by apply elem_of_nil in Hin'. }
  destruct (chain_bounds _ _ _ _ Hwf Hch Hin') as [H1 H2].
  rewrite Forall_forall in Hwf. destruct (Hwf _ Hin') as (H3 & H4 & H5).
  unfold range_end in H2. cbn [rangeOfPage range_offset range_length] in *.
  split; [done|]. split; [done|]. split; [done|]. split; [done|]. split; [lia|].
  split; [apply Hr|].
  destruct (Z.le_gt_cases fileSize (Int64.max_int - 4095)) as [Hle|Hgt]; [done|].
  rewrite paddedBlobSize_overflow in Hpos by (split; [lia|apply Hr]).
  pose proof min_int_eq. lia.
Qed.

Lemma transmitBounds_scanned file fileSize pageList page :
  Int64.in_range fileSize ->
  storageBlobPageSplit file fileSize = ScanOk pageList ->
  page ∈ pageList ->
  let end_ := Z.min (offset page + io.Size (section page) - 1) (fileSize - 1) in
  transmitBounds fileSize page = (offset page, end_, end_ - offset page + 1) /\
  (0 <= fileSize -> offset page <= end_).
Proof.
  intros Hr Hs Hin.
  destruct (scanned_page _ _ _ _ Hr Hs Hin) as (Ho & Ho0 & Hl & Hlen & Hend & Hsz).
  destruct (paddedBlobSize_small fileSize Hsz) as (Hpa & Hpb & Hpc).
  pose proof (paddedBlobSize_aligned fileSize Hr) as [_ Hpr].
  pose proof (aligned_le_max _ Hpa (proj2 Hpr)) as Hpm.
  pose proof minPageSize_eq as Hmin. pose proof maxPageSize_eq as Hmax.
  pose proof max_int_eq as Hmi. pose proof min_int_eq as Hmn.
  assert (minPageSize <= io.Size (section page)) as Hl4.
  { pose proof (aligned_lt 0 _ aligned_0 Hl). lia. }
  cbv zeta. unfold transmitBounds.
  rewrite (add_in_range (offset page)) by (unfold Int64.in_range; lia).
  rewrite (sub_in_range (_ + _)) by (unfold Int64.in_range; lia).
  rewrite (sub_in_range fileSize) by (unfold Int64.in_range; lia).
  destruct (Z.gtb_spec (offset page + io.Size (section page) - 1) (fileSize - 1)).
  - rewrite Z.min_r by lia.
    rewrite (sub_in_range (fileSize - 1)) by (unfold Int64.in_range; lia).
    rewrite add_in_range by (unfold Int64.in_range; lia).
    split; [done|]. intros Hpos. specialize (Hpc Hpos). lia.
  - rewrite Z.min_l by lia.
    rewrite (sub_in_range (_ - 1)) by (unfold Int64.in_range; lia).
    rewrite add_in_range by (unfold Int64.in_range; lia).
    split; [done|]. lia.
Qed.

Lemma scanned_sizes_ok file fileSize pageList :
  Int64.in_range fileSize -> 0 <= fileSize ->
  storageBlobPageSplit file fileSize = ScanOk pageList ->
  forall page, page ∈ pageList -> 0 <= (transmitBounds fileSize page).2.
Proof.
  intros Hr Hpos Hs page Hin.
  destruct (transmitBounds_scanned _ _ _ _ Hr Hs Hin) as [-> Hle].
  cbn [snd]. specialize (Hle Hpos). lia.
Qed.

(** What a run of the coordinator adds to the log. *)
Lemma pageUploadFromSource_log h sched sbu history file fileSize pageList :
  storageBlobPageSplit file fileSize = ScanOk pageList ->
  exists new,
    outcomeLog (pageUploadFromSource h sched sbu history file fileSize)
      = history ++ new /\
    Forall (eventOk sbu fileSize pageList) new.
Proof.
  intros Hs. unfold pageUploadFromSource. rewrite Hs.
  destruct (run_inv sbu fileSize pageList history sched _ []
              (launch_inv sbu fileSize pageList history
                 (Int64.mul (Parallelism sbu) (runtime_NumCPU h))))
    as [new Hinv].
  exists new. destruct Hinv. simpl in *.
  destruct (panicked _); [done|]. by destruct (_ =? 0).
Qed.


(** ** The coordinator *)

Lemma pageUploadFromSource_waits h sched sbu history file fileSize pageList :
  storageBlobPageSplit file fileSize = ScanOk pageList ->
  let p := run sbu fileSize sched
             (launch pageList (Int64.mul (Parallelism sbu) (runtime_NumCPU h)) history) in
  pageUploadFromSource h sched sbu history file fileSize =
    if panicked p then Panicked p
    else if wg p =? 0 then Returned (firstError sbu p) (log p)
    else Waiting p.
Proof. intros Hs. unfold pageUploadFromSource. by rewrite Hs. Qed.

Lemma run_no_workers sbu blobSize sched p :
  workers p = [] -> run sbu blobSize sched p = p.
Proof.
  intros Hw. induction sched as [|w sched IH]; simpl; [done|].
  destruct (wg p =? 0); [done|].
  unfold blobPageUploadWorker. rewrite Hw. by destruct (panicked p).
Qed.


(** C10: the coordinator returns only when there is a worker or nothing
    to do.  With no worker and a range in the queue (as with Parallelism
    0) no schedule makes the wait end: the counter stays at the number of
    ranges and nothing is ever added to the log.  With a worker, or with
    an empty queue, some schedule makes the call return; and with a
    worker, whatever the schedule so far, the pool has not panicked and,
    while the wait has not ended, some worker can step, each step bringing
    the pool nearer to rest, so that the wait ends under every schedule
    that keeps letting such workers step. *)
Theorem pageUploadFromSource_terminates h sbu history file fileSize pageList :
  Int64.in_range fileSize -> 0 <= fileSize ->
  storageBlobPageSplit file fileSize = ScanOk pageList ->
  let workerCount := Int64.mul (Parallelism sbu) (runtime_NumCPU h) in
  (Parallelism sbu = 0 -> workerCount = 0) /\
  (workerCount <= 0 -> pageList <> [] ->
   forall sched, exists p,
     pageUploadFromSource h sched sbu history file fileSize = Waiting p /\
     wg p = Z.of_nat (length pageList) /\ log p = history) /\
  ((exists sched err log,
      pageUploadFromSource h sched sbu history file fileSize = Returned err log) <->
   1 <= workerCount \/ pageList = []) /\
  (1 <= workerCount ->
   forall sched,
     let p := run sbu fileSize sched (launch pageList workerCount history) in
     panicked p = false /\
     (wg p <> 0 ->
      exists w p', blobPageUploadWorker sbu fileSize w p = Some p' /\
        0 <= measure p' < measure p)).
Proof.
  intros Hr Hpos Hs workerCount.
  assert (workerCount <= 0 -> pageList <> [] ->
    forall sched, exists p,
      pageUploadFromSource h sched sbu history file fileSize = Waiting p /\
      wg p = Z.of_nat (length pageList) /\ log p = history) as Hblocked.
  { intros Hw Hne sched.
    set (p0 := launch pageList workerCount history).
    assert (wg p0 <> 0) as Hwg.
    { simpl. destruct pageList; [done|]. simpl. lia. }
    assert (run sbu fileSize sched p0 = p0) as Hrun.
    { apply run_no_workers. simpl. by replace (Z.to_nat workerCount) with 0%nat by lia. }
    exists p0. rewrite (pageUploadFromSource_waits _ _ _ _ _ _ _ Hs).
    fold workerCount p0. rewrite Hrun. simpl.
    destruct (Z.eqb_spec (Z.of_nat (length pageList)) 0) as [E|E]; [|done].
    destruct pageList; [done|]. simpl in E. lia. }
  split; [|split; [done|]].
  { unfold workerCount. intros ->. reflexivity. }
  split; [split|].
  - intros (sched & err & log & Hret).
    destruct (Z.le_gt_cases 1 workerCount) as [?|Hw]; [by left|right].
    destruct pageList as [|page pageList'] eqn:Hpl; [done|].
    destruct (Hblocked ltac:(lia) ltac:(done) sched) as (p & Hp & _). congruence.
  - intros Hpre.
    set (p0 := launch pageList workerCount history).
    pose proof (launch_inv sbu fileSize pageList history workerCount) as Hinv.
    fold p0 in Hinv.
    assert (exists sched, wg (run sbu fileSize sched p0) = 0) as [sched Hz].
    { destruct Hpre as [Hw| ->].
      - exists (roundRobin (length (workers p0)) (Z.to_nat (measure p0))).
        apply (roundRobin_done sbu fileSize pageList history) with (new := []);
          [by eapply scanned_sizes_ok|done|done| |].
        + simpl. destruct (Z.to_nat workerCount) eqn:E; [lia|done].
        + pose proof (measure_nonneg p0). lia.
      - exists []. done. }
    exists sched. rewrite (pageUploadFromSource_waits _ _ _ _ _ _ _ Hs).
    fold workerCount p0.
    rewrite (run_no_panic sbu fileSize pageList history
               (scanned_sizes_ok _ _ _ Hr Hpos Hs) sched p0 [] Hinv eq_refl).
    rewrite Hz. simpl. eauto.
  - intros Hw sched p.
    pose proof (launch_inv sbu fileSize pageList history workerCount) as Hinv.
    destruct (run_inv sbu fileSize pageList history sched _ _ Hinv) as [new Hinv'].
    fold p in Hinv'.
    assert (panicked p = false) as Hpan.
    { apply (run_no_panic sbu fileSize pageList history
               (scanned_sizes_ok _ _ _ Hr Hpos Hs) sched _ [] Hinv eq_refl). }
    split; [done|]. intros Hz.
    destruct (pool_progress sbu fileSize pageList history p _ Hinv' Hpan Hz)
      as (w & _ & [p' Hstep]).
    { intros Hnil. pose proof (run_workers sbu fileSize sched
                                 (launch pageList workerCount history)) as Hlen.
      fold p in Hlen. rewrite Hnil in Hlen. simpl in Hlen.
      rewrite length_replicate in Hlen. lia. }
    exists w, p'. split; [done|].
    pose proof (worker_step_measure sbu fileSize w p p' Hstep).
    pose proof (measure_nonneg p'). lia.
Qed.

(** ** The creation dispatch *)

(** C7: with no copy source given, the dispatch refuses before any
    remote call (the log stays empty) a page blob with a source and a
    size, a page blob with neither source nor size, and a blob type that
    is neither block nor page. *)
Theorem Create_validates h sched sbu :
  SourceUri sbu = "" ->
  let blobType := strings_ToLower h (BlobType sbu) in
  (blobType = "page" -> Source sbu <> "" -> Size sbu <> 0 ->
   Create h sched sbu = Returned (Some ErrSizeSet) []) /\
  (blobType = "page" -> Source sbu = "" -> Size sbu = 0 ->
   Create h sched sbu = Returned (Some ErrSizeZero) []) /\
  (blobType <> "block" -> blobType <> "page" ->
   Create h sched sbu = Returned (Some (ErrUnsupportedBlobType blobType)) []).
Proof.
  intros Huri blobType. unfold Create. fold blobType. rewrite Huri.
  change (negb ("" =? "")%string) with false. cbv iota.
  split; [|split].
  - intros Hpage Hsrc Hsz. rewrite Hpage.
    change ("page" =? "block")%string with false.
    change ("page" =? "page")%string with true. cbv iota.
    destruct (String.eqb_spec (Source sbu) ""); [done|]. cbn [negb].
    unfold uploadPageBlob. by destruct (Z.eqb_spec (Size sbu) 0).
  - intros Hpage Hsrc Hsz. rewrite Hpage, Hsrc.
    change ("page" =? "block")%string with false.
    change ("page" =? "page")%string with true.
    change (negb ("" =? "")%string) with false. cbv iota.
    unfold createEmptyPageBlob. by rewrite Hsz.
  - intros Hb Hp.
    destruct (String.eqb_spec blobType "block"); [done|].
    by destruct (String.eqb_spec blobType "page").
Qed.

Lemma omap_none {A B} (f : A -> option B) (l : list A) :
  (forall x, x ∈ l -> f x = None) -> omap f l = [].
Proof.
  induction l as [|x l IH]; intros Hf; [done|]. simpl.
  rewrite (Hf x) by (apply elem_of_cons; by left).
  apply IH. intros y Hy. apply Hf. apply elem_of_cons. by right.
Qed.

Lemma outcomeLog_creatingOnAzure o : outcomeLog (creatingOnAzure o) = outcomeLog o.
Proof. by destruct o as [[err|] log| | |]. Qed.

(** C1, as the code has it: an upload of a page blob from a source file
    creates the remote blob with the size of the file, which is the padded
    blob size exactly when the file size is a multiple of the page unit;
    every call after it is a write of a range that lies within the
    first [fileSize] bytes, so that no write reaches past the size the
    blob was created with. *)
Theorem uploadPageBlob_creates_fileSize h sched sbu history file fileSize :
  Size sbu = 0 ->
  os_Open h (Source sbu) = inr file -> Stat file = inr fileSize ->
  Int64.in_range fileSize -> 0 <= fileSize ->
  (exists err new,
     outcomeLog (uploadPageBlob h sched sbu history) =
       history ++
       Remote (PutPageBlob (AccountName sbu) (ContainerName sbu) (BlobName sbu)
                 fileSize (ContentType sbu) (MetaData sbu)) err :: new /\
     createdSize new = [] /\
     forall start end_ size, (start, end_, size) ∈ writes new ->
       0 <= start <= end_ /\ end_ < fileSize /\ size = end_ - start + 1) /\
  (paddedBlobSize fileSize = fileSize <-> aligned fileSize).
Proof.
  intros Hsz Hopen Hstat Hr Hpos. split.
  - unfold uploadPageBlob. rewrite Hsz, Hopen, Hstat. cbn [Z.eqb negb remote].
    set (c := PutPageBlob _ _ _ _ _ _).
    destruct (respond (Client sbu) (remoteCalls history) c) as [err|].
    { exists (Some err), []. simpl. split; [done|]. split; [done|].
      intros start end_ size Hin. by apply elem_of_nil in Hin. }
    exists None. rewrite outcomeLog_creatingOnAzure.
    destruct (storageBlobPageSplit (reader file) fileSize) as [pageList|e|] eqn:Hs.
    + destruct (pageUploadFromSource_log h sched sbu (history ++ [Remote c None])
                  _ _ _ Hs) as (new & Hlog & Hev).
      exists new. rewrite Hlog, <- app_assoc. split; [done|].
      rewrite Forall_forall in Hev. split.
      * unfold createdSize. apply omap_none. intros ev Hin.
        specialize (Hev ev Hin). destruct ev as [[]|]; simpl in *; done.
      * intros start end_ size Hin. unfold writes in Hin.
        apply list_elem_of_omap in Hin as (ev & Hin & Hw).
        specialize (Hev ev Hin).
        destruct ev as [[| | | |a c' b s e chunk] err|]; simpl in *; try done.
        injection Hw as <- <- <-.
        destruct Hev as (_ & _ & _ & page & Hpage & Hb).
        destruct (transmitBounds_scanned _ _ _ _ Hr Hs Hpage) as [Hb' Hle].
        destruct (scanned_page _ _ _ _ Hr Hs Hpage) as (_ & Ho & _).
        rewrite Hb' in Hb. injection Hb as <- <- <-. specialize (Hle Hpos). lia.
    + exists []. unfold pageUploadFromSource. rewrite Hs. simpl.
      split; [done|]. split; [done|].
      intros start end_ size Hin. by apply elem_of_nil in Hin.
    + exfalso. unfold storageBlobPageSplit in Hs.
      pose proof (scanRanges_fuel (reader file) fileSize Hr).
      by destruct (scanRanges (reader file) fileSize).
  - destruct (Z.le_gt_cases fileSize (Int64.max_int - 4095)) as [Hle|Hgt].
    + destruct (paddedBlobSize_small fileSize) as (Ha & Hb & Hc);
        [pose proof min_int_eq; lia|].
      specialize (Hc Hpos). split; [by intros <-|].
      intros [k Hk]. destruct Ha as [l Hl]. rewrite minPageSize_eq in *. lia.
    + rewrite paddedBlobSize_overflow by (split; [lia|apply Hr]).
      pose proof min_int_eq. pose proof max_int_eq. split; [lia|].
      intros [k Hk]. rewrite minPageSize_eq in Hk.
      destruct Hr as [_ Hmax]. assert (k <= 2251799813685247) by lia. lia.
Qed.

(** ** The scenarios, run *)

Lemma scenario_in_range : Int64.in_range 10000.
Proof. split; discriminate. Qed.

Lemma scenario_split :
  storageBlobPageSplit (osFile scenarioFile) 10000 =
    ScanOk (pageOfRange (osFile scenarioFile) <$>
              [ {| range_offset := 0; range_length := 4096 |};
                {| range_offset := 8192; range_length := 4096 |} ]).
Proof. vm_compute. reflexivity. Qed.

Lemma storageBlobPageSplit_ranges_witness :
  let file := osFile scenarioFile in
  let pageList :=
    pageOfRange file <$>
      [ {| range_offset := 0; range_length := 4096 |};
        {| range_offset := 8192; range_length := 4096 |} ] in
  Int64.in_range 10000 /\
  storageBlobPageSplit file 10000 = ScanOk pageList /\
  (forall page, page ∈ pageList ->
     aligned (offset page) /\ 0 < io.Size (section page) <= maxPageSize) /\
  (forall (a b : nat) p1 p2,
     pageList !! a = Some p1 -> pageList !! b = Some p2 -> a <> b ->
     offset p1 + io.Size (section p1) <= offset p2 \/
     offset p2 + io.Size (section p2) <= offset p1) /\
  (forall (a b : nat) p1 p2,
     pageList !! a = Some p1 -> pageList !! b = Some p2 -> (a < b)%nat ->
     offset p1 < offset p2).
Proof.
  intros file pageList.
  split; [exact scenario_in_range|]. split; [exact scenario_split|].
  exact (storageBlobPageSplit_ranges file 10000 pageList
           scenario_in_range scenario_split).
Defined.

Lemma scenario_size_bound : 0 <= 10000 <= Int64.max_int - 4095.
Proof. split; discriminate. Qed.

Lemma paddedBlobSize_least_witness :
  0 <= 10000 <= Int64.max_int - 4095 /\
  aligned (paddedBlobSize 10000) /\
  10000 <= paddedBlobSize 10000 /\
  (forall m, aligned m -> 10000 <= m -> paddedBlobSize 10000 <= m) /\
  (aligned 10000 -> paddedBlobSize 10000 = 10000).
Proof.
  split; [exact scenario_size_bound|].
  exact (paddedBlobSize_least 10000 scenario_size_bound).
Defined.

Lemma storageBlobPageSplit_cover_witness :
  let file := osFile scenarioFile in
  let pageList :=
    pageOfRange file <$>
      [ {| range_offset := 0; range_length := 4096 |};
        {| range_offset := 8192; range_length := 4096 |} ] in
  let blobSize := paddedBlobSize 10000 in
  let rs := rangeOfPage <$> pageList in
  0 <= 10000 <= Int64.max_int - 4095 /\
  storageBlobPageSplit file 10000 = ScanOk pageList /\
  (forall r, r ∈ rs ->
     aligned (range_offset r) /\ aligned (range_length r) /\
     0 <= range_offset r /\ range_end r <= blobSize) /\
  (forall j, aligned j -> 0 <= j < blobSize ->
     (hasNonZero (pageBuf file j) <-> covered j rs)) /\
  ((forall j, aligned j -> 0 <= j < blobSize -> ~ hasNonZero (pageBuf file j)) ->
   pageList = []) /\
  ((forall j, aligned j -> 0 <= j < blobSize -> hasNonZero (pageBuf file j)) ->
   totalLength rs = blobSize /\
   forall (a : nat) r, rs !! a = Some r -> (S a < length rs)%nat ->
     range_length r = maxPageSize).
Proof.
  intros file pageList blobSize rs.
  split; [exact scenario_size_bound|]. split; [exact scenario_split|].
  exact (storageBlobPageSplit_cover file 10000 pageList
           scenario_size_bound scenario_split).
Defined.

(** C2 as stated fails for a file of 2^63 - 1 bytes, none of them zero:
    the padded size wraps around, the loop is not entered, and no range
    is returned although every page unit holds bytes other than zero. *)
Lemma storageBlobPageSplit_cover_overflow :
  let content := replicate (Z.to_nat Int64.max_int) xff in
  Z.of_nat (length content) = Int64.max_int /\
  storageBlobPageSplit (osFile content) Int64.max_int = ScanOk [] /\
  hasNonZero (pageBuf (osFile content) 0) /\
  ~ covered 0 (rangeOfPage <$> []).
Proof.
  intros content. pose proof max_int_eq as Hmax. split; [|split; [|split]].
  - unfold content. rewrite length_replicate. lia.
  - unfold storageBlobPageSplit. rewrite scanRanges_negative; [done|].
    rewrite paddedBlobSize_overflow by lia. pose proof min_int_eq. lia.
  - apply nonEmptyPage_hasNonZero. rewrite osFile_nonEmptyPage by lia.
    assert (content = xff :: replicate (Z.to_nat (Int64.max_int - 1)) xff) as ->.
    { unfold content.
      replace (Z.to_nat Int64.max_int) with (S (Z.to_nat (Int64.max_int - 1))) by lia.
      done. }
    change (Z.to_nat 0) with 0%nat. rewrite drop_0.
    change (Z.to_nat minPageSize) with (S (Z.to_nat (minPageSize - 1))).
    done.
  - apply covered_nil.
Qed.


Lemma storageBlobPageSplit_scenario_witness :
  Z.of_nat (length scenarioFile) = 10000 /\
  forallb isNonZeroByte (pageBytes scenarioFile 0) = true /\
  forallb isZeroByte (pageBytes scenarioFile 4096) = true /\
  forallb isNonZeroByte (pageBytes scenarioFile 8192) = true /\
  paddedBlobSize 10000 = 12288 /\
  storageBlobPageSplit (osFile scenarioFile) 10000 =
    ScanOk (pageOfRange (osFile scenarioFile) <$>
              [ {| range_offset := 0; range_length := 4096 |};
                {| range_offset := 8192; range_length := 4096 |} ]) /\
  rangeOfPage <$> (pageOfRange (osFile scenarioFile) <$>
              [ {| range_offset := 0; range_length := 4096 |};
                {| range_offset := 8192; range_length := 4096 |} ])
  = [ {| range_offset := 0; range_length := 4096 |};
      {| range_offset := 8192; range_length := 4096 |} ].
Proof.
  assert (Z.of_nat (length scenarioFile) = 10000) as H by (vm_compute; reflexivity).
  assert (forallb isNonZeroByte (pageBytes scenarioFile 0) = true) as H0
    by (vm_compute; reflexivity).
  assert (forallb isZeroByte (pageBytes scenarioFile 4096) = true) as H1
    by (vm_compute; reflexivity).
  assert (forallb isNonZeroByte (pageBytes scenarioFile 8192) = true) as H2
    by (vm_compute; reflexivity).
  split; [exact H|]. split; [exact H0|]. split; [exact H1|]. split; [exact H2|].
  exact (storageBlobPageSplit_scenario scenarioFile H H0 H1 H2).
Defined.

Lemma storageBlobPageSplit_read_failure_witness :
  let err := ExternalError "input/output error" in
  Int64.in_range 10000 /\
  aligned 4096 /\ 0 <= 4096 < paddedBlobSize 10000 /\
  snd (io.ReadAt faultyReader (Z.to_nat minPageSize) 4096) = Some err /\
  err <> IoEOF /\
  (forall k, aligned k -> 0 <= k < 4096 ->
     readFailure (snd (io.ReadAt faultyReader (Z.to_nat minPageSize) k)) = None) /\
  storageBlobPageSplit faultyReader 10000 = ScanErr (ErrReadChunk 4096 err) /\
  forall h sched sbu history,
    pageUploadFromSource h sched sbu history faultyReader 10000 =
      Returned (Some (ErrSplitting (Source sbu) (ErrReadChunk 4096 err))) history.
Proof.
  intros err.
  assert (aligned 4096) as Ha by (exists 1; reflexivity).
  assert (0 <= 4096 < paddedBlobSize 10000) as Hb by (vm_compute; done).
  assert (snd (io.ReadAt faultyReader (Z.to_nat minPageSize) 4096) = Some err) as Hr
    by reflexivity.
  assert (err <> IoEOF) as Hne by done.
  assert (forall k, aligned k -> 0 <= k < 4096 ->
     readFailure (snd (io.ReadAt faultyReader (Z.to_nat minPageSize) k)) = None)
    as Hk.
  { intros k _ Hk. unfold faultyReader. cbn [io.ReadAt].
    destruct (Z.eqb_spec k 4096); [lia|]. reflexivity. }
  split; [exact scenario_in_range|]. split; [exact Ha|]. split; [exact Hb|].
  split; [exact Hr|]. split; [exact Hne|]. split; [exact Hk|].
  exact (storageBlobPageSplit_read_failure faultyReader 10000 4096 err
           scenario_in_range Ha Hb Hr Hne Hk).
Defined.

Lemma plainUpload_sized :
  let sbu := plainUpload acceptingClient "Page" 512 "disk.vhd" in
  SourceUri sbu = "" /\ strings_ToLower scenarioHost (BlobType sbu) = "page" /\
  Source sbu <> "" /\ Size sbu <> 0.
Proof. repeat split; done. Qed.

Lemma plainUpload_empty :
  let sbu := plainUpload acceptingClient "PAGE" 0 "" in
  SourceUri sbu = "" /\ strings_ToLower scenarioHost (BlobType sbu) = "page" /\
  Source sbu = "" /\ Size sbu = 0.
Proof. repeat split; done. Qed.

Lemma plainUpload_append :
  let sbu := plainUpload acceptingClient "Append" 0 "disk.vhd" in
  SourceUri sbu = "" /\ strings_ToLower scenarioHost (BlobType sbu) <> "block" /\
  strings_ToLower scenarioHost (BlobType sbu) <> "page".
Proof. repeat split; done. Qed.

Lemma Create_validates_witness :
  (let sbu := plainUpload acceptingClient "Page" 512 "disk.vhd" in
   (SourceUri sbu = "" /\ strings_ToLower scenarioHost (BlobType sbu) = "page" /\
    Source sbu <> "" /\ Size sbu <> 0) /\
   Create scenarioHost [] sbu = Returned (Some ErrSizeSet) []) /\
  (let sbu := plainUpload acceptingClient "PAGE" 0 "" in
   (SourceUri sbu = "" /\ strings_ToLower scenarioHost (BlobType sbu) = "page" /\
    Source sbu = "" /\ Size sbu = 0) /\
   Create scenarioHost [] sbu = Returned (Some ErrSizeZero) []) /\
  (let sbu := plainUpload acceptingClient "Append" 0 "disk.vhd" in
   (SourceUri sbu = "" /\ strings_ToLower scenarioHost (BlobType sbu) <> "block" /\
    strings_ToLower scenarioHost (BlobType sbu) <> "page") /\
   Create scenarioHost [] sbu = Returned (Some (ErrUnsupportedBlobType "append")) []).
Proof.
  split; [|split]; intros sbu.
  - split; [exact plainUpload_sized|].
    destruct plainUpload_sized as (H1 & H2 & H3 & H4).
    exact (proj1 (Create_validates scenarioHost [] sbu H1) H2 H3 H4).
  - split; [exact plainUpload_empty|].
    destruct plainUpload_empty as (H1 & H2 & H3 & H4).
    exact (proj1 (proj2 (Create_validates scenarioHost [] sbu H1)) H2 H3 H4).
  - split; [exact plainUpload_append|].
    destruct plainUpload_append as (H1 & H2 & H3).
    exact (proj2 (proj2 (Create_validates scenarioHost [] sbu H1)) H2 H3).
Defined.



(** The run of the scenario with a client that refuses the write at
    offset 8192: both ranges are written to, one error comes back. *)
Example scenario_refused :
  let sbu := scenarioUpload (refusingClient 8192) 1 in
  let o := Create scenarioHost (roundRobin 1 12) sbu in
  o = Returned
        (Some (ErrCreatingOnAzure
                 (ErrUploading "disk.vhd"
                    (ErrWritingPage 8192 "disk.vhd" (ExternalError "server busy")))))
        (outcomeLog o) /\
  writes (outcomeLog o) = [(0, 4095, 4096); (8192, 9999, 1808)].
Proof. vm_compute. done. Qed.

Lemma pageUploadFromSource_terminates_witness :
  let sbu := scenarioUpload acceptingClient 0 in
  let h := scenarioHost in
  let file := osFile scenarioFile in
  let pageList :=
    pageOfRange file <$>
      [ {| range_offset := 0; range_length := 4096 |};
        {| range_offset := 8192; range_length := 4096 |} ] in
  let workerCount := Int64.mul (Parallelism sbu) (runtime_NumCPU h) in
  Int64.in_range 10000 /\ 0 <= 10000 /\
  storageBlobPageSplit file 10000 = ScanOk pageList /\
  (Parallelism sbu = 0 -> workerCount = 0) /\
  (workerCount <= 0 -> pageList <> [] ->
   forall sched, exists p,
     pageUploadFromSource h sched sbu [] file 10000 = Waiting p /\
     wg p = Z.of_nat (length pageList) /\ log p = []) /\
  ((exists sched err log,
      pageUploadFromSource h sched sbu [] file 10000 = Returned err log) <->
   1 <= workerCount \/ pageList = []) /\
  (1 <= workerCount ->
   forall sched,
     let p := run sbu 10000 sched (launch pageList workerCount []) in
     panicked p = false /\
     (wg p <> 0 ->
      exists w p', blobPageUploadWorker sbu 10000 w p = Some p' /\
        0 <= measure p' < measure p)).
Proof.
  intros sbu h file pageList workerCount.
  assert (0 <= 10000) as Hpos by discriminate.
  split; [exact scenario_in_range|]. split; [exact Hpos|].
  split; [exact scenario_split|].
  exact (pageUploadFromSource_terminates h sbu [] file 10000 pageList
           scenario_in_range Hpos scenario_split).
Defined.

Lemma uploadPageBlob_creates_fileSize_witness :
  let sbu := scenarioUpload acceptingClient 1 in
  let h := scenarioHost in
  let sched := roundRobin 1 12 in
  let file := {| Name := "disk.vhd"; reader := osFile scenarioFile; Stat := inr 10000 |} in
  Size sbu = 0 /\
  os_Open h (Source sbu) = inr file /\ Stat file = inr 10000 /\
  Int64.in_range 10000 /\ 0 <= 10000 /\
  (exists err new,
     outcomeLog (uploadPageBlob h sched sbu []) =
       [] ++
       Remote (PutPageBlob (AccountName sbu) (ContainerName sbu) (BlobName sbu)
                 10000 (ContentType sbu) (MetaData sbu)) err :: new /\
     createdSize new = [] /\
     forall start end_ size, (start, end_, size) ∈ writes new ->
       0 <= start <= end_ /\ end_ < 10000 /\ size = end_ - start + 1) /\
  (paddedBlobSize 10000 = 10000 <-> aligned 10000).
Proof.
  intros sbu h sched file.
  assert (0 <= 10000) as Hpos by discriminate.
  assert (Size sbu = 0) as Hsz by reflexivity.
  assert (os_Open h (Source sbu) = inr file) as Hopen by reflexivity.
  assert (Stat file = inr 10000) as Hstat by reflexivity.
  split; [exact Hsz|]. split; [exact Hopen|]. split; [exact Hstat|].
  split; [exact scenario_in_range|]. split; [exact Hpos|].
  exact (uploadPageBlob_creates_fileSize h sched sbu [] file 10000
           Hsz Hopen Hstat scenario_in_range Hpos).
Defined.

(** C1 as stated fails on the scenario: the blob is created with the
    10,000 bytes of the file, not with the padded 12,288, and the last
    write ends at byte 9,999. *)
Lemma uploadPageBlob_not_padded :
  let o := Create scenarioHost (roundRobin 1 12) (scenarioUpload acceptingClient 1) in
  o = Returned None (outcomeLog o) /\
  createdSize (outcomeLog o) = [10000] /\
  writes (outcomeLog o) = [(0, 4095, 4096); (8192, 9999, 1808)] /\
  paddedBlobSize 10000 = 12288 /\
  createdSize (outcomeLog o) <> [paddedBlobSize 10000].
Proof. vm_compute. repeat split; done. Qed.

(** * Further properties *)

(** ** The content the pool moves *)

Lemma written_app l1 l2 : written (l1 ++ l2) = written l1 ++ written l2.
Proof. apply omap_app. Qed.

Lemma okReads_app l1 l2 : okReads (l1 ++ l2) = okReads l1 ++ okReads l2.
Proof. apply omap_app. Qed.

Section content_invariant.
Context (sbu : BlobUpload) (blobSize : Z) (history : list event).

Local Abbreviation CInv := (contentInv sbu blobSize history).
Local Abbreviation step := (blobPageUploadWorker sbu blobSize).

Lemma launch_contentInv pageList workerCount :
  CInv (launch pageList workerCount history) [].
Proof.
  constructor; simpl; try done.
  - by rewrite app_nil_r.
  - by rewrite bind_replicate_nil.
Qed.

Ltac content_goal :=
  constructor;
  cbn [pages errors errorsCap wg workers log panicked
       setWorker setPages sendError wgDone record panic];
  match goal with
  | H : forall st, <[_ := st]> _ = _ |- _ => rewrite ?H
  end;
  match goal with
  | H : workers _ = _ |- _ => rewrite ?H
  end;
  rewrite ?bind_app, ?bind_cons, ?okReads_app, ?written_app, ?fmap_app, ?app_nil_r;
  cbn [preparing app okReads written omap list_omap fmap list_fmap] in *.

Ltac content_field :=
  first
    [ done
    | match goal with
      | H : log _ = _ |- _ = _ => by rewrite H, app_assoc
      | H : ?l ≡ₚ _ |- ?l ≡ₚ _ => rewrite H; solve_Permutation
      | H : ?l ≡ₚ _ |- ?l ++ _ ≡ₚ _ => rewrite H; solve_Permutation
      | |- Forall _ (_ ++ [_]) =>
          apply Forall_app; split; [done|]; apply Forall_singleton; cbn; by eauto
      end ].

Lemma worker_step_contentInv w p p' new :
  CInv p new -> step w p = Some p' -> exists added, CInv p' (new ++ added).
Proof.
  intros [Hlog Hreads Hans Hwrites].
  unfold blobPageUploadWorker. destruct (panicked p) eqn:Hpan; [done|].
  destruct (workers p !! w) as [st|] eqn:Hw; [|done].
  destruct (workers_split _ _ _ Hw) as (l1 & l2 & Hws & Hins).
  rewrite Hws in Hwrites. rewrite bind_app, bind_cons in Hwrites.
  destruct st as [|page|page start end_ chunk|err| |]; cbn [preparing app] in *.
  - destruct (pages p) as [|page rest] eqn:Hq; intros [= <-]; exists [];
      content_goal; content_field.
  - destruct (transmitBounds blobSize page) as [[start end_] size] eqn:Hb.
    destruct (Z.ltb_spec size 0) as [Hsz|Hsz].
    { intros [= <-]. exists []. content_goal; content_field. }
    destruct (io.Read (section page) (Z.to_nat size)) as [chunk err] eqn:Hrd.
    assert (readErr blobSize page = readFailure err) as Herr.
    { unfold readErr. rewrite Hb. cbn [fst snd]. by rewrite Hrd. }
    assert (writeOf blobSize page = (start, end_, chunk)) as Hwr.
    { unfold writeOf, readChunk. rewrite Hb. cbn [fst snd]. by rewrite Hrd. }
    destruct (readFailure err) as [err'|] eqn:Hf; intros [= <-].
    + exists [SectionRead page (Some err')]. content_goal; content_field.
    + exists [SectionRead page None]. content_goal; try content_field.
      all: rewrite ?Hwrites, ?Hwr; solve_Permutation.
  - destruct (respond _ _ _) as [err|] eqn:Hres; intros [= <-].
    + exists [Remote (PutPageUpdate (AccountName sbu) (ContainerName sbu)
                        (BlobName sbu) start end_ chunk) (Some err)].
      content_goal; content_field.
    + exists [Remote (PutPageUpdate (AccountName sbu) (ContainerName sbu)
                        (BlobName sbu) start end_ chunk) None].
      content_goal; content_field.
  - destruct (_ <? _)%nat; intros [= <-]. exists []. content_goal; content_field.
  - destruct (Z.ltb_spec (wg p - 1) 0) as [Hneg|Hneg]; intros [= <-];
      exists []; content_goal; content_field.
  - done.
Qed.

Lemma run_contentInv sched p new :
  CInv p new -> exists added, CInv (run sbu blobSize sched p) (new ++ added).
Proof.
  revert p new. induction sched as [|w sched IH]; intros p new Hinv; simpl.
  - exists []. by rewrite app_nil_r.
  - destruct (wg p =? 0); [exists []; by rewrite app_nil_r|].
    destruct (step w p) as [p'|] eqn:Hstep; [|by apply IH].
    destruct (worker_step_contentInv _ _ _ _ Hinv Hstep) as [a1 H1].
    destruct (IH _ _ H1) as [a2 H2]. exists (a1 ++ a2). by rewrite app_assoc.
Qed.
End content_invariant.

Lemma okReads_filter blobSize new :
  Forall (readEventOk blobSize) new ->
  okReads new = filter (fun page => readable blobSize page) (attempted new) /\
  failedReads new = filter (fun page => ¬ readable blobSize page) (attempted new).
Proof.
  induction 1 as [|ev new Hev _ [IH1 IH2]]; [done|].
  destruct ev as [c err|page err]; [done|]. simpl in Hev.
  cbn [okReads failedReads attempted omap list_omap].
  fold (okReads new) (failedReads new) (attempted new).
  rewrite !filter_cons.
  assert (readable blobSize page = match err with None => true | Some _ => false end)
    as Hr by (unfold readable; by rewrite <- Hev).
  destruct err as [err|].
  - rewrite decide_False by (rewrite Hr; simpl; tauto).
    rewrite decide_True by (rewrite Hr; simpl; tauto).
    cbn. by rewrite IH1, IH2.
  - rewrite decide_True by (by rewrite Hr).
    rewrite decide_False by (rewrite Hr; simpl; tauto).
    cbn. by rewrite IH1, IH2.
Qed.

(** The two invariants speak of the same events. *)
Lemma run_launch_inv sbu blobSize pageList workerCount history sched :
  let p := run sbu blobSize sched (launch pageList workerCount history) in
  exists new,
    poolInv sbu blobSize pageList history p new /\
    contentInv sbu blobSize history p new.
Proof.
  intros p.
  destruct (run_inv sbu blobSize pageList history sched _ []
              (launch_inv sbu blobSize pageList history workerCount)) as [new Hinv].
  destruct (run_contentInv sbu blobSize history sched _ []
              (launch_contentInv sbu blobSize history pageList workerCount))
    as [new' Hc].
  fold p in Hinv, Hc. simpl in Hinv, Hc. exists new. split; [done|].
  pose proof (pi_log _ _ _ _ _ _ Hinv) as H1.
  pose proof (ci_log _ _ _ _ _ Hc) as H2.
  rewrite H1 in H2. apply app_inv_head in H2. by subst new'.
Qed.

Lemma preparing_nil ws : total inflight ws = 0 -> ws ≫= preparing = [].
Proof. apply bind_nil_inflight. by intros []. Qed.

(** When the wait ends, the writes asked of the remote are those of the
    pages whose read did not fail, each once. *)
Lemma run_done_writes sbu blobSize pageList workerCount history sched :
  let p := run sbu blobSize sched (launch pageList workerCount history) in
  wg p = 0 ->
  exists new,
    log p = history ++ new /\
    poolInv sbu blobSize pageList history p new /\
    contentInv sbu blobSize history p new /\
    written new ≡ₚ
      writeOf blobSize <$> filter (fun page => readable blobSize page) pageList /\
    failedReads new ≡ₚ filter (fun page => ¬ readable blobSize page) pageList.
Proof.
  intros p Hz.
  destruct (run_launch_inv sbu blobSize pageList workerCount history sched)
    as (new & Hinv & Hc).
  fold p in Hinv, Hc. exists new.
  split; [apply (pi_log _ _ _ _ _ _ Hinv)|]. split; [done|]. split; [done|].
  destruct (poolInv_done _ _ _ _ _ _ Hinv Hz) as (Hatt & _ & _).
  destruct (okReads_filter blobSize new (ci_reads _ _ _ _ _ Hc)) as [Hok Hfail].
  pose proof (ci_writes _ _ _ _ _ Hc) as Hw.
  rewrite preparing_nil, app_nil_r in Hw.
  - split.
    + rewrite <- Hw, Hok. by rewrite Hatt.
    + rewrite Hfail. by rewrite Hatt.
  - pose proof (pi_wg _ _ _ _ _ _ Hinv) as Hwg.
    pose proof (total_nonneg inflight (workers p) inflight_nonneg). lia.
Qed.

(** ** Reading a file for upload *)

Lemma take_take_app {A} (n : nat) (l k : list A) :
  take n (take n l ++ k) = take n (l ++ k).
Proof.
  revert l. induction n as [|n IH]; intros [|x l]; simpl; try done.
  by rewrite IH.
Qed.

Lemma osFile_Read content off len (n : nat) :
  0 <= off -> 0 < len -> off + len <= Int64.max_int -> Z.of_nat n <= len ->
  io.Read (io.NewSectionReader (osFile content) off len) n =
    (take n (drop (Z.to_nat off) content ++ replicate n x00),
     if (length (take n (drop (Z.to_nat off) content)) <? n)%nat
     then Some IoEOF else None).
Proof.
  intros Hoff Hlen Hmax Hn. pose proof max_int_eq as Hmi. pose proof min_int_eq as Hmn.
  unfold io.Read, io.NewSectionReader.
  rewrite (sub_in_range Int64.max_int) by (unfold Int64.in_range; lia).
  destruct (Z.leb_spec off (Int64.max_int - len)); [|lia].
  cbn [io.sr_limit io.sr_off io.sr_r io.sr_base].
  rewrite add_in_range by (unfold Int64.in_range; lia).
  destruct (Z.leb_spec (len + off) off); [lia|].
  rewrite sub_in_range by (unfold Int64.in_range; lia).
  replace (len + off - off) with len by lia.
  destruct (Z.ltb_spec len (Z.of_nat n)); [lia|].
  unfold osFile. cbn [io.ReadAt]. destruct (Z.ltb_spec off 0); [lia|].
  rewrite take_take. rewrite Nat.min_id. by rewrite take_take_app.
Qed.

Lemma scanned_page_of file fileSize pageList page :
  Int64.in_range fileSize ->
  storageBlobPageSplit file fileSize = ScanOk pageList ->
  page ∈ pageList ->
  section page =
    io.NewSectionReader file (offset page) (io.Size (section page)).
Proof.
  intros Hr Hs Hin.
  destruct (storageBlobPageSplit_ok _ _ _ Hr Hs) as (rs & Hrs & Hpl & Hrp).
  pose proof Hin as Hin'. rewrite Hpl in Hin'.
  apply list_elem_of_fmap in Hin' as (r & -> & Hr').
  assert (rangeOfPage (pageOfRange file r) = r) as Hid.
  { assert (rangeOfPage (pageOfRange file r) ∈ rangeOfPage <$> pageList) as H
      by (by apply list_elem_of_fmap_2).
    rewrite Hrp in H.
    destruct (scanRanges_wf _ _ _ Hr Hrs) as [Hwf Hch].
    destruct (chain_bounds _ _ _ _ Hwf Hch Hr') as [H1 H2].
    rewrite Forall_forall in Hwf. destruct (Hwf r Hr') as (_ & _ & H3).
    apply pageOfRange_range; unfold range_end in *; sizes; lia. }
  apply (f_equal range_length) in Hid. cbn [rangeOfPage range_length] in Hid.
  rewrite Hid. done.
Qed.

(** What a worker reads of a file for a page the scanner queued: the read
    does not fail, and the content is the bytes of the file from the first
    to the last byte to transmit, zero-filled past the end of the file. *)
Lemma osFile_page_read content fileSize pageList page :
  Int64.in_range fileSize -> 0 <= fileSize ->
  storageBlobPageSplit (osFile content) fileSize = ScanOk pageList ->
  page ∈ pageList ->
  let start := offset page in
  let end_ := Z.min (offset page + io.Size (section page) - 1) (fileSize - 1) in
  let n := Z.to_nat (end_ - start + 1) in
  0 <= start <= end_ /\ end_ < fileSize /\
  readErr fileSize page = None /\
  writeOf fileSize page =
    (start, end_, take n (drop (Z.to_nat start) content ++ replicate n x00)).
Proof.
  intros Hr Hpos Hs Hin. cbv zeta.
  destruct (transmitBounds_scanned _ _ _ _ Hr Hs Hin) as [Hb Hle].
  destruct (scanned_page _ _ _ _ Hr Hs Hin) as (_ & Ho & _ & Hlen & Hend & _).
  specialize (Hle Hpos).
  pose proof (paddedBlobSize_aligned fileSize Hr) as [_ [_ Hpm]].
  set (end_ := Z.min (offset page + io.Size (section page) - 1) (fileSize - 1)) in *.
  set (n := Z.to_nat (end_ - offset page + 1)) in *.
  assert (end_ < fileSize) as He by (unfold end_; lia).
  assert (Z.of_nat n <= io.Size (section page)) as Hn by (unfold n, end_; lia).
  pose proof (osFile_Read content (offset page) (io.Size (section page)) n
                Ho ltac:(lia) ltac:(lia) Hn) as Hread.
  rewrite <- (scanned_page_of _ _ _ _ Hr Hs Hin) in Hread.
  split; [lia|]. split; [done|].
  unfold writeOf, readErr, readChunk. rewrite Hb. cbn [fst snd]. fold n.
  rewrite Hread. cbn [fst snd]. split; [|done].
  by destruct (_ <? _)%nat.
Qed.

(** ** The writes of a run *)

(** X1: whatever the schedule and whatever the client answers, when the wait
    of the coordinator ends the writes asked of the remote are exactly
    those of the queued pages whose read did not fail, each asked once
    with the bytes read for it; the pages whose read failed are the
    others. *)
Theorem run_writes_exactly sbu blobSize pageList workerCount history sched :
  let p := run sbu blobSize sched (launch pageList workerCount history) in
  wg p = 0 ->
  exists new,
    log p = history ++ new /\
    written new ≡ₚ
      writeOf blobSize <$> filter (fun page => readable blobSize page) pageList /\
    failedReads new ≡ₚ filter (fun page => ¬ readable blobSize page) pageList.
Proof.
  intros p Hz.
  destruct (run_done_writes sbu blobSize pageList workerCount history sched Hz)
    as (new & Hlog & _ & _ & Hw & Hf).
  by exists new.
Qed.

Lemma filter_all {A} (P : A -> Prop) `{forall x, Decision (P x)} (l : list A) :
  (forall x, x ∈ l -> P x) -> filter P l = l.
Proof.
  induction l as [|x l IH]; intros Hall; [done|].
  rewrite filter_cons, decide_True by (apply Hall, elem_of_cons; by left).
  rewrite IH; [done|]. intros y Hy. apply Hall, elem_of_cons. by right.
Qed.

Lemma filter_none {A} (P : A -> Prop) `{forall x, Decision (P x)} (l : list A) :
  (forall x, x ∈ l -> ~ P x) -> filter P l = [].
Proof.
  induction l as [|x l IH]; intros Hall; [done|].
  rewrite filter_cons, decide_False by (apply Hall, elem_of_cons; by left).
  apply IH. intros y Hy. apply Hall, elem_of_cons. by right.
Qed.

(** The run of the pool over a file, once the wait has ended. *)
Lemma osFile_run_done sbu content fileSize pageList workerCount history sched :
  Int64.in_range fileSize -> 0 <= fileSize ->
  storageBlobPageSplit (osFile content) fileSize = ScanOk pageList ->
  let p := run sbu fileSize sched (launch pageList workerCount history) in
  wg p = 0 ->
  exists new,
    log p = history ++ new /\
    poolInv sbu fileSize pageList history p new /\
    contentInv sbu fileSize history p new /\
    failedReads new = [] /\
    written new ≡ₚ writeOf fileSize <$> pageList.
Proof.
  intros Hr Hpos Hs p Hz.
  destruct (run_done_writes sbu fileSize pageList workerCount history sched Hz)
    as (new & Hlog & Hinv & Hc & Hw & Hf).
  assert (forall page, page ∈ pageList -> readable fileSize page) as Hall.
  { intros page Hin.
    destruct (osFile_page_read content fileSize pageList page Hr Hpos Hs Hin)
      as (_ & _ & Herr & _).
    unfold readable. by rewrite Herr. }
  exists new. split; [done|]. split; [done|]. split; [done|].
  rewrite filter_all in Hw by done.
  rewrite filter_none in Hf by (intros page Hin Hn; by apply Hn, Hall).
  split; [by apply Permutation_nil_r in Hf|done].
Qed.

(** X2: for a file, every write of a run that has come to its end carries
    the bytes of the file that lie between its first and its last byte,
    inside the file; no read for upload fails; and there is one write per
    queued range. *)
Theorem upload_writes_file_content sbu content pageList workerCount history sched :
  let fileSize := Z.of_nat (length content) in
  Int64.in_range fileSize ->
  storageBlobPageSplit (osFile content) fileSize = ScanOk pageList ->
  let p := run sbu fileSize sched (launch pageList workerCount history) in
  wg p = 0 ->
  exists new,
    log p = history ++ new /\
    failedReads new = [] /\
    length (written new) = length pageList /\
    forall start end_ chunk, (start, end_, chunk) ∈ written new ->
      0 <= start <= end_ /\ end_ < fileSize /\
      chunk = take (Z.to_nat (end_ - start + 1)) (drop (Z.to_nat start) content) /\
      Z.of_nat (length chunk) = end_ - start + 1.
Proof.
  intros fileSize Hr Hs p Hz.
  destruct (osFile_run_done sbu content fileSize pageList workerCount history sched
              Hr ltac:(unfold fileSize; lia) Hs Hz)
    as (new & Hlog & _ & _ & Hf & Hw).
  exists new. split; [done|]. split; [done|]. split.
  { rewrite Hw. by rewrite length_fmap. }
  intros start end_ chunk Hin. rewrite Hw in Hin.
  apply list_elem_of_fmap in Hin as (page & Heq & Hpage).
  destruct (osFile_page_read content fileSize pageList page Hr
              ltac:(unfold fileSize; lia) Hs Hpage) as (Hb1 & Hb2 & _ & Hwr).
  rewrite Hwr in Heq. injection Heq as -> -> ->.
  set (end_ := Z.min _ _) in *. set (n := Z.to_nat (end_ - offset page + 1)) in *.
  split; [done|]. split; [done|].
  assert (chunk_eq : take n (drop (Z.to_nat (offset page)) content ++ replicate n x00)
                     = take n (drop (Z.to_nat (offset page)) content)).
  { apply take_app_le. rewrite length_drop. unfold n, fileSize in *. lia. }
  rewrite chunk_eq. split; [done|].
  rewrite length_take, length_drop. unfold n, fileSize in *. lia.
Qed.

(** ** Every byte that matters is written *)

Lemma forallb_lookup {A} (f : A -> bool) (l : list A) (k : nat) x :
  forallb f l = true -> l !! k = Some x -> f x = true.
Proof.
  revert k. induction l as [|y l IH]; intros k Hall Hk; [done|].
  simpl in Hall. apply andb_true_iff in Hall as [Hy Hl].
  destruct k as [|k]; simpl in Hk; [by injection Hk as <-|]. by eapply IH.
Qed.

Lemma isZeroByte_true b : isZeroByte b = true -> b = x00.
Proof. apply Byte.byte_dec_bl. Qed.

(** The page unit of a file that holds a byte other than zero is not
    empty to the scanner. *)
Lemma osFile_nonEmpty_byte content (k : nat) b :
  content !! k = Some b -> b <> x00 ->
  let j := Z.of_nat k / minPageSize * minPageSize in
  aligned j /\ 0 <= j <= Z.of_nat k /\ Z.of_nat k < j + minPageSize /\
  nonEmptyPage (osFile content) j = true.
Proof.
  intros Hk Hb j. pose proof minPageSize_eq as Hmin.
  assert (0 <= j <= Z.of_nat k /\ Z.of_nat k < j + minPageSize) as Hj.
  { unfold j. rewrite Hmin. pose proof (Z.div_mod (Z.of_nat k) 4096 ltac:(lia)).
    pose proof (Z.mod_pos_bound (Z.of_nat k) 4096 ltac:(lia)). lia. }
  split; [by exists (Z.of_nat k / minPageSize)|]. split; [lia|]. split; [lia|].
  rewrite osFile_nonEmptyPage by lia. apply negb_true_iff, not_true_iff_false.
  intros Hall.
  assert (take (Z.to_nat minPageSize) (drop (Z.to_nat j) content)
            !! (k - Z.to_nat j)%nat = Some b) as Hlook.
  { rewrite lookup_take_lt by lia. rewrite lookup_drop.
    replace (Z.to_nat j + (k - Z.to_nat j))%nat with k by lia. done. }
  apply Hb, isZeroByte_true. by eapply forallb_lookup.
Qed.

(** X3: for a file, once the run has come to its end, every byte of the file
    other than zero has been asked to be written at its own offset:
    some write spans the offset and carries that byte there. *)
Theorem upload_writes_every_nonzero_byte
    sbu content pageList workerCount history sched :
  let fileSize := Z.of_nat (length content) in
  fileSize <= Int64.max_int - 4095 ->
  storageBlobPageSplit (osFile content) fileSize = ScanOk pageList ->
  let p := run sbu fileSize sched (launch pageList workerCount history) in
  wg p = 0 ->
  exists new,
    log p = history ++ new /\
    forall (k : nat) b, content !! k = Some b -> b <> x00 ->
      exists start end_ chunk,
        (start, end_, chunk) ∈ written new /\
        start <= Z.of_nat k <= end_ /\
        chunk !! Z.to_nat (Z.of_nat k - start) = Some b.
Proof.
  intros fileSize Hfit Hs p Hz.
  assert (0 <= fileSize) as Hpos by (unfold fileSize; lia).
  assert (Int64.in_range fileSize) as Hr.
  { pose proof max_int_eq. pose proof min_int_eq. unfold Int64.in_range. lia. }
  destruct (osFile_run_done sbu content fileSize pageList workerCount history sched
              Hr Hpos Hs Hz) as (new & Hlog & _ & _ & _ & Hw).
  exists new. split; [done|]. intros k b Hk Hb.
  assert (Z.of_nat k < fileSize) as Hklen.
  { apply lookup_lt_Some in Hk. unfold fileSize. lia. }
  destruct (osFile_nonEmpty_byte content k b Hk Hb) as (Hja & Hj0 & Hjk & Hne).
  set (j := Z.of_nat k / minPageSize * minPageSize) in *.
  destruct (storageBlobPageSplit_ok _ _ _ Hr Hs) as (rs & Hrs & Hpl & Hrp).
  destruct (paddedBlobSize_small fileSize ltac:(pose proof min_int_eq; lia))
    as (Hpa & Hpb & _).
  assert (0 <= j < paddedBlobSize fileSize) as Hjp by lia.
  destruct (scanRanges_ok _ _ _ Hr Hrs) as [[Hp0 _]|[Hp0 Hsc]]; [lia|].
  destruct Hsc as [Hwf _ Hch Hcov].
  destruct (proj1 (Hcov j Hja Hjp) Hne)
    as (r & Hr' & Hcv).
  assert (pageOfRange (osFile content) r ∈ pageList) as Hpage.
  { rewrite Hpl. by apply list_elem_of_fmap_2. }
  set (page := pageOfRange (osFile content) r) in *.
  destruct (osFile_page_read content fileSize pageList page Hr Hpos Hs Hpage)
    as (Hb1 & Hb2 & _ & Hwr).
  destruct (chain_bounds _ _ _ _ Hwf Hch Hr') as [Hlo Hhi].
  rewrite Forall_forall in Hwf. destruct (Hwf r Hr') as (Hoa & Hla & Hlen).
  assert (rangeOfPage page = r) as Hid.
  { pose proof (aligned_le_max _ Hpa (proj2 (proj2 (paddedBlobSize_aligned _ Hr)))).
    apply pageOfRange_range; unfold range_end in *; sizes; lia. }
  assert (offset page = range_offset r) as Hoff by done.
  assert (io.Size (section page) = range_length r) as Hsize.
  { apply (f_equal range_length) in Hid. done. }
  unfold covers, range_end in Hcv.
  assert (j + minPageSize <= range_offset r + range_length r) as Hjend.
  { apply aligned_lt; [done| |lia]. by apply aligned_add. }
  set (end_ := Z.min _ _) in *. set (n := Z.to_nat (end_ - offset page + 1)) in *.
  exists (offset page), end_,
    (take n (drop (Z.to_nat (offset page)) content ++ replicate n x00)).
  split; [rewrite Hw, <- Hwr; by apply list_elem_of_fmap_2|].
  assert (Z.of_nat k <= end_) as Hke by (unfold end_; lia).
  split; [lia|].
  rewrite lookup_take_lt by (unfold n; lia).
  rewrite lookup_app_l by (rewrite length_drop; lia).
  rewrite lookup_drop.
  replace (Z.to_nat (offset page) + Z.to_nat (Z.of_nat k - offset page))%nat
    with k by lia.
  done.
Qed.

(** ** Success and silence *)

Lemma failures_nil sbu new :
  accepting (Client sbu) -> Forall (answerOk sbu) new -> failedReads new = [] ->
  failures sbu new = [].
Proof.
  intros Hacc. induction 1 as [|ev new Hev _ IH]; [done|].
  destruct ev as [c err|page [err|]]; cbn; intros Hf.
  - destruct Hev as [calls ->]. rewrite Hacc.
    fold (failures sbu new). rewrite IH by done. by destruct c.
  - done.
  - fold (failures sbu new). by apply IH.
Qed.

Lemma osFile_accepted_done h sched sbu history content fileSize pageList :
  Int64.in_range fileSize -> 0 <= fileSize ->
  accepting (Client sbu) ->
  storageBlobPageSplit (osFile content) fileSize = ScanOk pageList ->
  let p := run sbu fileSize sched
             (launch pageList (Int64.mul (Parallelism sbu) (runtime_NumCPU h)) history) in
  wg p = 0 ->
  errors p = [] /\
  pageUploadFromSource h sched sbu history (osFile content) fileSize
    = Returned None (log p).
Proof.
  intros Hr Hpos Hacc Hs p Hz.
  destruct (osFile_run_done sbu content fileSize pageList _ history sched
              Hr Hpos Hs Hz) as (new & Hlog & Hinv & Hc & Hf & _).
  fold p in Hinv, Hc.
  destruct (poolInv_done _ _ _ _ _ _ Hinv Hz) as (_ & Herr & _).
  rewrite (failures_nil sbu new Hacc (ci_answers _ _ _ _ _ Hc) Hf) in Herr.
  apply Permutation_nil_r in Herr. split; [done|].
  assert (panicked p = false) as Hpan.
  { apply (run_no_panic sbu fileSize pageList history
             (scanned_sizes_ok _ _ _ Hr Hpos Hs) sched _ []
             (launch_inv sbu fileSize pageList history _) eq_refl). }
  rewrite (pageUploadFromSource_waits _ _ _ _ _ _ _ Hs). fold p.
  rewrite Hpan, Hz. simpl. unfold firstError. by rewrite Herr.
Qed.

(** X4: for a file and a client that refuses no call, the coordinator returns
    success whenever its wait ends, whatever the schedule: nothing was
    sent on the [errors] channel. *)
Theorem pageUploadFromSource_accepted h sched sbu history content fileSize pageList :
  Int64.in_range fileSize -> 0 <= fileSize ->
  accepting (Client sbu) ->
  storageBlobPageSplit (osFile content) fileSize = ScanOk pageList ->
  let p := run sbu fileSize sched
             (launch pageList (Int64.mul (Parallelism sbu) (runtime_NumCPU h)) history) in
  wg p = 0 ->
  errors p = [] /\
  pageUploadFromSource h sched sbu history (osFile content) fileSize
    = Returned None (log p).
Proof. apply osFile_accepted_done. Qed.

Lemma forallb_take_drop {A} (f : A -> bool) (l : list A) (n m : nat) :
  forallb f l = true -> forallb f (take n (drop m l)) = true.
Proof.
  intros Hall. apply forallb_forall. intros x Hx.
  apply (proj1 (forallb_forall f l) Hall).
  apply list_elem_of_In. apply list_elem_of_In in Hx.
  apply list_elem_of_lookup in Hx as [i Hi].
  apply lookup_take_Some in Hi as [Hi _]. rewrite lookup_drop in Hi.
  by eapply list_elem_of_lookup_2.
Qed.

(** X5: a file that holds only zero bytes (an empty file among them) yields
    no range, whatever size is given for it; its upload writes nothing and
    returns success under every schedule and with any number of workers,
    none included. *)
Theorem upload_of_zeros_writes_nothing h sched sbu history content fileSize :
  forallb isZeroByte content = true ->
  Int64.in_range fileSize ->
  storageBlobPageSplit (osFile content) fileSize = ScanOk [] /\
  pageUploadFromSource h sched sbu history (osFile content) fileSize
    = Returned None history.
Proof.
  intros Hzero Hr.
  assert (storageBlobPageSplit (osFile content) fileSize = ScanOk []) as Hs.
  { destruct (osFile_scan content fileSize Hr) as [rs Hrs].
    unfold storageBlobPageSplit. rewrite Hrs.
    destruct (scanRanges_ok _ _ _ Hr Hrs) as [[_ ->]|[Hpos Hsc]]; [done|].
    rewrite (scanned_all_empty _ _ _ Hsc); [done|].
    intros j Hj Hjb. rewrite osFile_nonEmptyPage by lia.
    by rewrite forallb_take_drop. }
  split; [done|].
  rewrite (pageUploadFromSource_waits _ _ _ _ _ _ _ Hs). cbv zeta.
  rewrite run_done by done. done.
Qed.

(** ** What the pool never does *)

Lemma worker_step_wg sbu blobSize w p p' :
  blobPageUploadWorker sbu blobSize w p = Some p' -> wg p' <= wg p.
Proof.
  unfold blobPageUploadWorker. destruct (panicked p); [done|].
  destruct (workers p !! w) as [[|page|page start end_ chunk|err| |]|]; try done.
  - destruct (pages p); intros [= <-]; simpl; lia.
  - destruct (transmitBounds blobSize page) as [[start end_] size].
    destruct (size <? 0); [intros [= <-]; simpl; lia|].
    destruct (io.Read _ _) as [chunk err].
    destruct (readFailure err); intros [= <-]; simpl; lia.
  - destruct (respond _ _ _); intros [= <-]; simpl; lia.
  - destruct (_ <? _)%nat; intros [= <-]. simpl; lia.
  - destruct (_ <? 0); intros [= <-]; simpl; lia.
Qed.

Lemma run_wg sbu blobSize sched p : wg (run sbu blobSize sched p) <= wg p.
Proof.
  revert p. induction sched as [|w sched IH]; intros p; simpl; [lia|].
  destruct (wg p =? 0); [lia|].
  destruct (blobPageUploadWorker sbu blobSize w p) as [p'|] eqn:Hstep; [|apply IH].
  apply worker_step_wg in Hstep. specialize (IH p'). lia.
Qed.

(** X6: at every moment of every run the counter of the wait group lies
    between zero and the number of queued ranges and never goes up, the
    [errors] channel holds fewer errors than its capacity while a worker
    has one to send, so that no worker ever blocks on it, and at most as
    many errors as there are ranges. *)
Theorem pool_never_blocks sbu blobSize pageList workerCount history sched :
  let p := run sbu blobSize sched (launch pageList workerCount history) in
  0 <= wg p <= Z.of_nat (length pageList) /\
  (length (errors p) <= errorsCap p)%nat /\
  errorsCap p = length pageList /\
  forall (w : nat) err, workers p !! w = Some (Reporting err) ->
    (length (errors p) < errorsCap p)%nat.
Proof.
  intros p.
  destruct (run_inv sbu blobSize pageList history sched _ []
              (launch_inv sbu blobSize pageList history workerCount)) as [new Hinv].
  fold p in Hinv. destruct Hinv as [_ Hcap Hwg Hroom _ _ _ _ _ _].
  pose proof (total_nonneg inflight (workers p) inflight_nonneg).
  pose proof (total_nonneg unsent (workers p) ltac:(by intros [])).
  pose proof (run_wg sbu blobSize sched (launch pageList workerCount history)) as Hle.
  fold p in Hle. simpl in Hle.
  split; [lia|]. split; [lia|]. split; [done|].
  intros w err Hw. destruct (workers_split _ _ _ Hw) as (l1 & l2 & Hws & _).
  rewrite Hws, total_app, total_cons in Hroom. cbn [unsent] in Hroom.
  pose proof (total_nonneg unsent l1 ltac:(by intros [])).
  pose proof (total_nonneg unsent l2 ltac:(by intros [])).
  lia.
Qed.

(** ** More of the scanner *)

(** X7: the scanner merges: a returned range ends only at the maximum range
    size, at the end of the padded blob, or before a page unit that holds
    only zero bytes; so two ranges that touch are split by the ceiling
    alone. *)
Theorem storageBlobPageSplit_merges file fileSize pageList :
  Int64.in_range fileSize ->
  storageBlobPageSplit file fileSize = ScanOk pageList ->
  (forall page, page ∈ pageList ->
     let end_ := offset page + io.Size (section page) in
     io.Size (section page) = maxPageSize \/
     end_ = paddedBlobSize fileSize \/
     ~ hasNonZero (pageBuf file end_)) /\
  (forall (a : nat) p1 p2,
     pageList !! a = Some p1 -> pageList !! S a = Some p2 ->
     offset p1 + io.Size (section p1) = offset p2 ->
     io.Size (section p1) = maxPageSize).
Proof.
  intros Hr Hs.
  destruct (storageBlobPageSplit_ok _ _ _ Hr Hs) as (rs & Hrs & _ & Hpl).
  destruct (scanRanges_ok _ _ _ Hr Hrs) as [[_ ->]|[Hpos [Hwf Hcl Hch Hcov]]].
  { apply fmap_nil_inv in Hpl as ->. split; [|done].
    intros page Hin. by apply elem_of_nil in Hin. }
  assert (forall page, page ∈ pageList -> rangeOfPage page ∈ rs) as Hin'.
  { intros page Hin. rewrite <- Hpl. by apply list_elem_of_fmap_2. }
  rewrite Forall_forall in Hcl, Hwf.
  assert (forall page, page ∈ pageList ->
     io.Size (section page) = maxPageSize \/
     offset page + io.Size (section page) = paddedBlobSize fileSize \/
     nonEmptyPage file (offset page + io.Size (section page)) = false) as Hclosed.
  { intros page Hin. apply (Hcl _ (Hin' page Hin)). }
  split.
  - intros page Hin. cbv zeta.
    destruct (Hclosed page Hin) as [?|[?|Hne]]; [by left|by right; left|].
    right; right. rewrite <- nonEmptyPage_hasNonZero. by rewrite Hne.
  - intros a p1 p2 Ha Hb Htouch.
    pose proof (list_elem_of_lookup_2 _ _ _ Ha) as Hin1.
    pose proof (list_elem_of_lookup_2 _ _ _ Hb) as Hin2.
    destruct (chain_bounds _ _ _ _ (proj2 (Forall_forall _ _) Hwf) Hch (Hin' _ Hin2))
      as [Hlo Hhi].
    destruct (Hwf _ (Hin' _ Hin2)) as (Hal & _ & Hlen).
    unfold range_end in Hhi. cbn [rangeOfPage range_offset range_length] in *.
    destruct (Hclosed p1 Hin1) as [?|[?|Hne]]; [done|lia|].
    rewrite Htouch in Hne.
    assert (nonEmptyPage file (offset p2) = true) as Hfull.
    { apply Hcov; [done|lia|]. exists (rangeOfPage p2). split; [by apply Hin'|].
      unfold covers, range_end. cbn. lia. }
    congruence.
Qed.

(** X8: scanning a file never fails, whatever size is given for it: what lies
    past the end of the file reads as zero; and every returned range
    starts inside the file. *)
Theorem osFile_scan_total content fileSize :
  Int64.in_range fileSize ->
  exists pageList,
    storageBlobPageSplit (osFile content) fileSize = ScanOk pageList /\
    forall page, page ∈ pageList -> 0 <= offset page < Z.of_nat (length content).
Proof.
  intros Hr. destruct (osFile_scan content fileSize Hr) as [rs Hrs].
  exists (pageOfRange (osFile content) <$> rs).
  assert (storageBlobPageSplit (osFile content) fileSize
          = ScanOk (pageOfRange (osFile content) <$> rs)) as Hs.
  { unfold storageBlobPageSplit. by rewrite Hrs. }
  split; [done|]. intros page Hin.
  destruct (scanned_page _ _ _ _ Hr Hs Hin) as (Ha & Ho & _ & Hlen & Hend & _).
  split; [done|].
  destruct (storageBlobPageSplit_ok _ _ _ Hr Hs) as (rs' & Hrs' & _ & Hpl).
  assert (rs' = rs) as -> by congruence.
  destruct (scanRanges_ok _ _ _ Hr Hrs) as [[_ ->]|[Hpos [Hwf _ Hch Hcov]]].
  { by apply elem_of_nil in Hin. }
  assert (nonEmptyPage (osFile content) (offset page) = true) as Hne.
  { apply Hcov; [done|lia|]. exists (rangeOfPage page).
    split; [rewrite <- Hpl; by apply list_elem_of_fmap_2|].
    unfold covers, range_end. cbn. lia. }
  rewrite osFile_nonEmptyPage in Hne by done.
  destruct (Z.lt_ge_cases (offset page) (Z.of_nat (length content))) as [?|Hge];
    [done|].
  rewrite drop_ge in Hne by lia. by rewrite take_nil in Hne.
Qed.

(** X9: only the range that reaches the end of the padded blob is shortened:
    every other write has the full length of its range, a multiple of
    the page unit, and the shortened one stops at the last byte of the
    file. *)
Theorem only_last_range_clipped file fileSize pageList page :
  Int64.in_range fileSize -> 0 <= fileSize ->
  storageBlobPageSplit file fileSize = ScanOk pageList ->
  page ∈ pageList ->
  let size := (transmitBounds fileSize page).2 in
  0 < size /\
  (size = io.Size (section page) \/
   offset page + io.Size (section page) = paddedBlobSize fileSize /\
   size = fileSize - offset page /\ ~ aligned fileSize).
Proof.
  intros Hr Hpos Hs Hin. cbv zeta.
  destruct (transmitBounds_scanned _ _ _ _ Hr Hs Hin) as [Hb Hle].
  destruct (scanned_page _ _ _ _ Hr Hs Hin) as (Ho & Ho0 & Hl & Hlen & Hend & Hfit).
  destruct (paddedBlobSize_small fileSize Hfit) as (Hpa & Hpb & Hpc).
  specialize (Hle Hpos). specialize (Hpc Hpos). rewrite Hb. cbn [snd].
  split; [lia|].
  destruct (Z.le_gt_cases (offset page + io.Size (section page)) fileSize) as [Hin'|Hout].
  - left. rewrite Z.min_l by lia. lia.
  - right. rewrite Z.min_r by lia.
    assert (aligned (offset page + io.Size (section page))) as Hea
      by (by apply aligned_add).
    destruct Hea as [k Hk], Hpa as [l Hl'].
    pose proof minPageSize_eq as Hmin. rewrite Hmin in *.
    split; [lia|]. split; [lia|]. intros [m Hm]. lia.
Qed.

(** ** More of the dispatch *)

Lemma Create_copy_path h sched sbu :
  SourceUri sbu <> "" ->
  Create h sched sbu =
    let c := CopyAndWait (AccountName sbu) (ContainerName sbu) (BlobName sbu)
               (SourceUri sbu) (MetaData sbu) in
    let err := respond (Client sbu) [] c in
    Returned (ErrCopyWaiting <$> err) [Remote c err].
Proof.
  intros Huri. cbv zeta. unfold Create.
  destruct (String.eqb_spec (SourceUri sbu) ""); [done|]. cbn [negb].
  unfold copy, remote. cbn [remoteCalls omap list_omap app].
  by destruct (respond _ _ _).
Qed.

(** X10: a copy source comes first: with one, the dispatch makes the one call
    [CopyAndWait] and answers with its result, without looking at the
    blob type, the source file, the size or the host. *)
Theorem Create_copy_first h sched sbu :
  SourceUri sbu <> "" ->
  let c := CopyAndWait (AccountName sbu) (ContainerName sbu) (BlobName sbu)
             (SourceUri sbu) (MetaData sbu) in
  let err := respond (Client sbu) [] c in
  Create h sched sbu = Returned (ErrCopyWaiting <$> err) [Remote c err].
Proof.
  intros Huri. by apply Create_copy_path.
Qed.

(** X11: only the upload of a page blob from a source uses the worker pool:
    on every other path the dispatch returns under every schedule, having
    made no call at all and failed, or exactly one call, never a write of
    a page, whose answer is the result. *)
Theorem Create_without_pool h sched sbu :
  SourceUri sbu <> "" \/ strings_ToLower h (BlobType sbu) <> "page" \/ Source sbu = "" ->
  exists err log,
    Create h sched sbu = Returned err log /\
    attempted log = [] /\ written log = [] /\
    ((log = [] /\ err <> None) \/
     exists c answer, log = [Remote c answer] /\ (err = None <-> answer = None)).
Proof.
  intros Hpath.
  destruct (String.eqb_spec (SourceUri sbu) "") as [Huri|Huri].
  2:{ rewrite (Create_copy_path h sched sbu Huri). cbv zeta.
      destruct (respond (Client sbu) [] _) as [e|];
        eexists _, _; (split; [done|]); (split; [done|]); (split; [done|]);
        right; eexists _, _; (split; [done|]); done. }
  unfold Create. rewrite Huri. change (negb ("" =? "")%string) with false. cbv iota.
  destruct (String.eqb_spec (strings_ToLower h (BlobType sbu)) "block") as [Hb|Hb].
  - destruct (String.eqb_spec (Source sbu) "") as [Hsrc|Hsrc]; cbn [negb].
    + unfold createEmptyBlockBlob, remote. cbn [remoteCalls omap list_omap app].
      destruct (respond _ _ _) as [e|];
        eexists _, _; (split; [done|]); (split; [done|]); (split; [done|]);
        right; eexists _, _; (split; [done|]); done.
    + unfold uploadBlockBlob. destruct (os_Open h (Source sbu)) as [e|file].
      * eexists _, _. split; [done|]. split; [done|]. split; [done|]. by left.
      * unfold remote. cbn [remoteCalls omap list_omap app].
        destruct (respond _ _ _) as [e|];
          eexists _, _; (split; [done|]); (split; [done|]); (split; [done|]);
          right; eexists _, _; (split; [done|]); done.
  - destruct (String.eqb_spec (strings_ToLower h (BlobType sbu)) "page") as [Hp|Hp].
    + destruct Hpath as [?|[?|Hsrc]]; [done..|]. rewrite Hsrc.
      change (negb ("" =? "")%string) with false. cbv iota.
      unfold createEmptyPageBlob. destruct (Size sbu =? 0).
      * eexists _, _. split; [done|]. split; [done|]. split; [done|]. by left.
      * unfold remote. cbn [remoteCalls omap list_omap app].
        destruct (respond _ _ _) as [e|];
          eexists _, _; (split; [done|]); (split; [done|]); (split; [done|]);
          right; eexists _, _; (split; [done|]); done.
    + eexists _, _. split; [done|]. split; [done|]. split; [done|]. by left.
Qed.

(** X12: a page upload stops at the first thing that goes wrong before the
    scan: a file that cannot be opened or whose size cannot be read leaves
    the remote untouched, and a refused creation is the only call made. *)
Theorem Create_page_upload_stops_early h sched sbu :
  SourceUri sbu = "" -> strings_ToLower h (BlobType sbu) = "page" ->
  Source sbu <> "" -> Size sbu = 0 ->
  (forall e, os_Open h (Source sbu) = inl e ->
     Create h sched sbu = Returned (Some (ErrOpeningSource (Source sbu) e)) []) /\
  (forall file e, os_Open h (Source sbu) = inr file -> Stat file = inl e ->
     Create h sched sbu = Returned (Some (ErrStat (Name file) e)) []) /\
  (forall file fileSize e,
     os_Open h (Source sbu) = inr file -> Stat file = inr fileSize ->
     let c := PutPageBlob (AccountName sbu) (ContainerName sbu) (BlobName sbu)
                fileSize (ContentType sbu) (MetaData sbu) in
     respond (Client sbu) [] c = Some e ->
     Create h sched sbu = Returned (Some (ErrPutPageBlob e)) [Remote c (Some e)]).
Proof.
  intros Huri Hpage Hsrc Hsz.
  assert (Create h sched sbu = uploadPageBlob h sched sbu []) as ->.
  { unfold Create. rewrite Huri, Hpage.
    change (negb ("" =? "")%string) with false.
    change ("page" =? "block")%string with false.
    change ("page" =? "page")%string with true. cbv iota.
    by destruct (String.eqb_spec (Source sbu) ""). }
  unfold uploadPageBlob. rewrite Hsz. cbn [Z.eqb negb].
  split; [|split].
  - by intros e ->.
  - by intros file e -> ->.
  - intros file fileSize e -> -> Hc. unfold remote.
    cbn [remoteCalls omap list_omap app]. by rewrite Hc.
Qed.

(** ** The ranges against one another *)

(** X13: the writes of two different queued ranges never overlap: the earlier
    one ends before the later one starts, so that the order in which the
    workers make them does not matter. *)
Theorem writes_do_not_overlap file fileSize pageList (a b : nat) p1 p2 :
  Int64.in_range fileSize ->
  storageBlobPageSplit file fileSize = ScanOk pageList ->
  pageList !! a = Some p1 -> pageList !! b = Some p2 -> (a < b)%nat ->
  (transmitBounds fileSize p1).1.2 < (transmitBounds fileSize p2).1.1.
Proof.
  intros Hr Hs Ha Hb Hab.
  destruct (storageBlobPageSplit_ok _ _ _ Hr Hs) as (rs & Hrs & _ & Hpl).
  destruct (scanRanges_wf _ _ _ Hr Hrs) as [Hwf Hch].
  assert (forall (i : nat) p, pageList !! i = Some p -> rs !! i = Some (rangeOfPage p))
    as Hlook.
  { intros i p Hi. rewrite <- Hpl, list_lookup_fmap, Hi. done. }
  pose proof (chain_lookup _ _ _ a b _ _ Hwf Hch (Hlook _ _ Ha) (Hlook _ _ Hb) Hab)
    as Hord.
  unfold range_end in Hord. cbn [rangeOfPage range_offset range_length] in Hord.
  destruct (transmitBounds_scanned _ _ _ _ Hr Hs (list_elem_of_lookup_2 _ _ _ Ha))
    as [-> _].
  destruct (transmitBounds_scanned _ _ _ _ Hr Hs (list_elem_of_lookup_2 _ _ _ Hb))
    as [-> _].
  cbn [fst snd]. lia.
Qed.

Lemma chain_clipped_total (F lo hi : Z) (rs : list byteRange) :
  Forall range_wf rs -> chain lo rs hi ->
  foldr (fun r s => Z.max 0 (Z.min (range_length r) (F - range_offset r)) + s) 0 rs
  <= Z.max 0 (F - lo).
Proof.
  intros Hwf. revert lo. induction Hwf as [|r rs (_ & _ & Hlen) _ IH]; simpl; intros lo.
  - lia.
  - intros [H1 H2]. specialize (IH _ H2). unfold range_end in IH. lia.
Qed.

(** X14: all together the writes of the queued ranges carry no more bytes
    than the file holds. *)
Theorem writes_within_file_size file fileSize pageList :
  Int64.in_range fileSize -> 0 <= fileSize ->
  storageBlobPageSplit file fileSize = ScanOk pageList ->
  0 <= totalSize fileSize pageList <= fileSize.
Proof.
  intros Hr Hpos Hs.
  destruct (storageBlobPageSplit_ok _ _ _ Hr Hs) as (rs & Hrs & _ & Hpl).
  destruct (scanRanges_wf _ _ _ Hr Hrs) as [Hwf Hch].
  pose proof (chain_clipped_total fileSize 0 _ rs Hwf Hch) as Hsum.
  assert (forall l, (forall page, page ∈ l -> page ∈ pageList) ->
    0 <= totalSize fileSize l /\
    totalSize fileSize l =
      foldr (fun r s => Z.max 0 (Z.min (range_length r) (fileSize - range_offset r)) + s)
        0 (rangeOfPage <$> l)) as Heq.
  { induction l as [|page l IH]; intros Hl; [done|].
    destruct IH as [IH0 IH]; [intros q Hq; apply Hl, elem_of_cons; by right|].
    assert (page ∈ pageList) as Hin by (apply Hl, elem_of_cons; by left).
    destruct (transmitBounds_scanned _ _ _ _ Hr Hs Hin) as [Hb Hle].
    specialize (Hle Hpos). cbn [totalSize foldr fmap list_fmap].
    fold (totalSize fileSize l). rewrite Hb. cbn [snd rangeOfPage range_offset range_length].
    change (foldr _ 0 (list_fmap _ _ rangeOfPage l)) with
      (foldr (fun r s => Z.max 0 (Z.min (range_length r) (fileSize - range_offset r)) + s)
         0 (rangeOfPage <$> l)).
    rewrite <- IH. lia. }
  destruct (Heq pageList ltac:(done)) as [H0 H1]. rewrite Hpl in H1. lia.
Qed.

(** ** From end to end *)

Lemma eventOk_createdSize sbu blobSize pageList new :
  Forall (eventOk sbu blobSize pageList) new -> createdSize new = [].
Proof.
  intros Hev. rewrite Forall_forall in Hev. apply omap_none. intros ev Hin.
  specialize (Hev ev Hin). destruct ev as [[]|]; simpl in *; done.
Qed.

Lemma Create_page_upload h sched sbu :
  SourceUri sbu = "" -> strings_ToLower h (BlobType sbu) = "page" ->
  Source sbu <> "" ->
  Create h sched sbu = uploadPageBlob h sched sbu [].
Proof.
  intros Huri Hpage Hsrc. unfold Create. rewrite Huri, Hpage.
  change (negb ("" =? "")%string) with false.
  change ("page" =? "block")%string with false.
  change ("page" =? "page")%string with true. cbv iota.
  by destruct (String.eqb_spec (Source sbu) "").
Qed.

(** X15: the upload of a file as a page blob to a client that refuses no call
    cannot return an error, whatever the schedule, and creates the blob
    once, with the size of the file; with at least one worker some
    schedule makes it return. *)
Theorem Create_page_upload_succeeds h sbu file content :
  let fileSize := Z.of_nat (length content) in
  let workerCount := Int64.mul (Parallelism sbu) (runtime_NumCPU h) in
  SourceUri sbu = "" -> strings_ToLower h (BlobType sbu) = "page" ->
  Source sbu <> "" -> Size sbu = 0 ->
  os_Open h (Source sbu) = inr file ->
  reader file = osFile content -> Stat file = inr fileSize ->
  Int64.in_range fileSize ->
  accepting (Client sbu) ->
  (forall sched err log,
     Create h sched sbu = Returned err log ->
     err = None /\ createdSize log = [fileSize] /\ failedReads log = []) /\
  (1 <= workerCount -> exists sched log, Create h sched sbu = Returned None log).
Proof.
  intros fileSize workerCount Huri Hpage Hsrc Hsz Hopen Hreader Hstat Hr Hacc.
  subst workerCount. set (workerCount := Int64.mul _ _).
  assert (0 <= fileSize) as Hpos by (unfold fileSize; lia).
  set (c := PutPageBlob (AccountName sbu) (ContainerName sbu) (BlobName sbu)
              fileSize (ContentType sbu) (MetaData sbu)).
  assert (forall sched, Create h sched sbu =
            creatingOnAzure
              (pageUploadFromSource h sched sbu [Remote c None] (osFile content) fileSize))
    as Hcreate.
  { intros sched. rewrite Create_page_upload by done.
    unfold uploadPageBlob. rewrite Hsz, Hopen, Hstat, Hreader. cbn [Z.eqb negb].
    unfold remote. cbn [remoteCalls omap list_omap app]. fold c.
    by rewrite Hacc. }
  destruct (osFile_scan content fileSize Hr) as [rs Hrs].
  assert (storageBlobPageSplit (osFile content) fileSize
          = ScanOk (pageOfRange (osFile content) <$> rs)) as Hs.
  { unfold storageBlobPageSplit. by rewrite Hrs. }
  set (pageList := pageOfRange (osFile content) <$> rs) in *.
  assert (forall sched,
    let p := run sbu fileSize sched (launch pageList workerCount [Remote c None]) in
    wg p = 0 ->
    exists new, Create h sched sbu = Returned None ([Remote c None] ++ new) /\
      createdSize new = [] /\ failedReads new = []) as Hdone.
  { intros sched p Hz.
    destruct (osFile_accepted_done h sched sbu [Remote c None] content fileSize
                pageList Hr Hpos Hacc Hs Hz) as [_ Hret].
    destruct (osFile_run_done sbu content fileSize pageList workerCount
                [Remote c None] sched Hr Hpos Hs Hz)
      as (new & Hlog & Hinv & _ & Hf & _).
    fold p in Hret, Hlog, Hinv. exists new.
    unfold p, workerCount in Hlog.
    rewrite Hcreate, Hret, Hlog. split; [done|]. split; [|done].
    eapply eventOk_createdSize, (pi_events _ _ _ _ _ _ Hinv). }
  split.
  - intros sched err log Hret.
    pose proof (pageUploadFromSource_waits h sched sbu [Remote c None] _ _ _ Hs) as Hw.
    cbv zeta in Hw. fold workerCount in Hw.
    set (p := run sbu fileSize sched (launch pageList workerCount [Remote c None])) in *.
    destruct (Z.eq_dec (wg p) 0) as [Hz|Hz].
    + destruct (Hdone sched Hz) as (new & Hc & Hcs & Hfr).
      rewrite Hc in Hret. injection Hret as <- <-. split; [done|].
      unfold createdSize, failedReads in *. cbn. by rewrite Hcs, Hfr.
    + rewrite Hcreate, Hw in Hret.
      destruct (panicked p); [done|]. by destruct (Z.eqb_spec (wg p) 0).
  - intros Hw.
    set (p0 := launch pageList workerCount [Remote c None]).
    pose proof (launch_inv sbu fileSize pageList [Remote c None] workerCount) as Hinv.
    fold p0 in Hinv.
    assert (wg (run sbu fileSize
                  (roundRobin (length (workers p0)) (Z.to_nat (measure p0))) p0) = 0)
      as Hz.
    { apply (roundRobin_done sbu fileSize pageList [Remote c None]) with (new := []);
        [by eapply scanned_sizes_ok|done|done| |].
      - simpl. destruct (Z.to_nat workerCount) eqn:E; [lia|done].
      - pose proof (measure_nonneg p0). lia. }
    destruct (Hdone _ Hz) as (new & Hc & _). eauto.
Qed.

(** ** The further properties on the scenarios *)

Lemma scenario_length_in_range : Int64.in_range (Z.of_nat (length scenarioFile)).
Proof. vm_compute. split; discriminate. Qed.

Lemma scenario_length_fits : Z.of_nat (length scenarioFile) <= Int64.max_int - 4095.
Proof. vm_compute. discriminate. Qed.

Lemma scenario_split_length :
  storageBlobPageSplit (osFile scenarioFile) (Z.of_nat (length scenarioFile)) =
    ScanOk (pageOfRange (osFile scenarioFile) <$>
              [ {| range_offset := 0; range_length := 4096 |};
                {| range_offset := 8192; range_length := 4096 |} ]).
Proof. vm_compute. reflexivity. Qed.

Lemma scenario_run_length_done :
  wg (run (scenarioUpload (refusingClient 8192) 1) (Z.of_nat (length scenarioFile))
        (roundRobin 1 12)
        (launch (pageOfRange (osFile scenarioFile) <$>
                   [ {| range_offset := 0; range_length := 4096 |};
                     {| range_offset := 8192; range_length := 4096 |} ])
           1 [])) = 0.
Proof. vm_compute. reflexivity. Qed.

Lemma scenario_run_accepted_done :
  let sbu := scenarioUpload acceptingClient 1 in
  wg (run sbu 10000 (roundRobin 1 12)
        (launch (pageOfRange (osFile scenarioFile) <$>
                   [ {| range_offset := 0; range_length := 4096 |};
                     {| range_offset := 8192; range_length := 4096 |} ])
           (Int64.mul (Parallelism sbu) (runtime_NumCPU scenarioHost)) [])) = 0.
Proof. vm_compute. reflexivity. Qed.

Lemma accepting_acceptingClient : accepting acceptingClient.
Proof. by intros calls c. Qed.

Lemma run_writes_exactly_witness :
  let sbu := scenarioUpload (refusingClient 8192) 1 in
  let blobSize := Z.of_nat (length scenarioFile) in
  let pageList :=
    pageOfRange (osFile scenarioFile) <$>
      [ {| range_offset := 0; range_length := 4096 |};
        {| range_offset := 8192; range_length := 4096 |} ] in
  let p := run sbu blobSize (roundRobin 1 12) (launch pageList 1 []) in
  wg p = 0 /\
  exists new,
    log p = [] ++ new /\
    written new ≡ₚ
      writeOf blobSize <$> filter (fun page => readable blobSize page) pageList /\
    failedReads new ≡ₚ filter (fun page => ¬ readable blobSize page) pageList.
Proof.
  intros sbu blobSize pageList p. split; [exact scenario_run_length_done|].
  exact (run_writes_exactly sbu blobSize pageList 1 [] (roundRobin 1 12)
           scenario_run_length_done).
Defined.

Lemma upload_writes_file_content_witness :
  let sbu := scenarioUpload (refusingClient 8192) 1 in
  let content := scenarioFile in
  let fileSize := Z.of_nat (length content) in
  let pageList :=
    pageOfRange (osFile content) <$>
      [ {| range_offset := 0; range_length := 4096 |};
        {| range_offset := 8192; range_length := 4096 |} ] in
  let p := run sbu fileSize (roundRobin 1 12) (launch pageList 1 []) in
  Int64.in_range fileSize /\
  storageBlobPageSplit (osFile content) fileSize = ScanOk pageList /\
  wg p = 0 /\
  exists new,
    log p = [] ++ new /\
    failedReads new = [] /\
    length (written new) = length pageList /\
    forall start end_ chunk, (start, end_, chunk) ∈ written new ->
      0 <= start <= end_ /\ end_ < fileSize /\
      chunk = take (Z.to_nat (end_ - start + 1)) (drop (Z.to_nat start) content) /\
      Z.of_nat (length chunk) = end_ - start + 1.
Proof.
  intros sbu content fileSize pageList p.
  split; [exact scenario_length_in_range|]. split; [exact scenario_split_length|].
  split; [exact scenario_run_length_done|].
  exact (upload_writes_file_content sbu content pageList 1 [] (roundRobin 1 12)
           scenario_length_in_range scenario_split_length scenario_run_length_done).
Defined.

Lemma upload_writes_every_nonzero_byte_witness :
  let sbu := scenarioUpload (refusingClient 8192) 1 in
  let content := scenarioFile in
  let fileSize := Z.of_nat (length content) in
  let pageList :=
    pageOfRange (osFile content) <$>
      [ {| range_offset := 0; range_length := 4096 |};
        {| range_offset := 8192; range_length := 4096 |} ] in
  let p := run sbu fileSize (roundRobin 1 12) (launch pageList 1 []) in
  fileSize <= Int64.max_int - 4095 /\
  storageBlobPageSplit (osFile content) fileSize = ScanOk pageList /\
  wg p = 0 /\
  exists new,
    log p = [] ++ new /\
    forall (k : nat) b, content !! k = Some b -> b <> x00 ->
      exists start end_ chunk,
        (start, end_, chunk) ∈ written new /\
        start <= Z.of_nat k <= end_ /\
        chunk !! Z.to_nat (Z.of_nat k - start) = Some b.
Proof.
  intros sbu content fileSize pageList p.
  split; [exact scenario_length_fits|]. split; [exact scenario_split_length|].
  split; [exact scenario_run_length_done|].
  exact (upload_writes_every_nonzero_byte sbu content pageList 1 [] (roundRobin 1 12)
           scenario_length_fits scenario_split_length scenario_run_length_done).
Defined.

Lemma pageUploadFromSource_accepted_witness :
  let sbu := scenarioUpload acceptingClient 1 in
  let h := scenarioHost in
  let sched := roundRobin 1 12 in
  let pageList :=
    pageOfRange (osFile scenarioFile) <$>
      [ {| range_offset := 0; range_length := 4096 |};
        {| range_offset := 8192; range_length := 4096 |} ] in
  let p := run sbu 10000 sched
             (launch pageList (Int64.mul (Parallelism sbu) (runtime_NumCPU h)) []) in
  Int64.in_range 10000 /\ 0 <= 10000 /\
  accepting (Client sbu) /\
  storageBlobPageSplit (osFile scenarioFile) 10000 = ScanOk pageList /\
  wg p = 0 /\
  errors p = [] /\
  pageUploadFromSource h sched sbu [] (osFile scenarioFile) 10000
    = Returned None (log p).
Proof.
  intros sbu h sched pageList p.
  assert (0 <= 10000) as Hpos by discriminate.
  split; [exact scenario_in_range|]. split; [exact Hpos|].
  split; [exact accepting_acceptingClient|]. split; [exact scenario_split|].
  split; [exact scenario_run_accepted_done|].
  exact (pageUploadFromSource_accepted h sched sbu [] scenarioFile 10000 pageList
           scenario_in_range Hpos accepting_acceptingClient scenario_split
           scenario_run_accepted_done).
Defined.

Lemma zeroFile_zero : forallb isZeroByte zeroFile = true.
Proof. vm_compute. reflexivity. Qed.

Lemma zeroFile_in_range : Int64.in_range 5000.
Proof. split; discriminate. Qed.

Lemma upload_of_zeros_writes_nothing_witness :
  let sbu := scenarioUpload acceptingClient 0 in
  forallb isZeroByte zeroFile = true /\
  Int64.in_range 5000 /\
  storageBlobPageSplit (osFile zeroFile) 5000 = ScanOk [] /\
  pageUploadFromSource scenarioHost [] sbu [] (osFile zeroFile) 5000
    = Returned None [].
Proof.
  intros sbu. split; [exact zeroFile_zero|]. split; [exact zeroFile_in_range|].
  exact (upload_of_zeros_writes_nothing scenarioHost [] sbu [] zeroFile 5000
           zeroFile_zero zeroFile_in_range).
Defined.

Lemma storageBlobPageSplit_merges_witness :
  let file := osFile scenarioFile in
  let pageList :=
    pageOfRange file <$>
      [ {| range_offset := 0; range_length := 4096 |};
        {| range_offset := 8192; range_length := 4096 |} ] in
  Int64.in_range 10000 /\
  storageBlobPageSplit file 10000 = ScanOk pageList /\
  (forall page, page ∈ pageList ->
     let end_ := offset page + io.Size (section page) in
     io.Size (section page) = maxPageSize \/
     end_ = paddedBlobSize 10000 \/
     ~ hasNonZero (pageBuf file end_)) /\
  (forall (a : nat) p1 p2,
     pageList !! a = Some p1 -> pageList !! S a = Some p2 ->
     offset p1 + io.Size (section p1) = offset p2 ->
     io.Size (section p1) = maxPageSize).
Proof.
  intros file pageList.
  split; [exact scenario_in_range|]. split; [exact scenario_split|].
  exact (storageBlobPageSplit_merges file 10000 pageList
           scenario_in_range scenario_split).
Defined.

Lemma osFile_scan_total_witness :
  Int64.in_range 10000 /\
  exists pageList,
    storageBlobPageSplit (osFile scenarioFile) 10000 = ScanOk pageList /\
    forall page, page ∈ pageList ->
      0 <= offset page < Z.of_nat (length scenarioFile).
Proof.
  split; [exact scenario_in_range|].
  exact (osFile_scan_total scenarioFile 10000 scenario_in_range).
Defined.

Lemma scenario_last_page :
  pageOfRange (osFile scenarioFile) {| range_offset := 8192; range_length := 4096 |}
  ∈ pageOfRange (osFile scenarioFile) <$>
      [ {| range_offset := 0; range_length := 4096 |};
        {| range_offset := 8192; range_length := 4096 |} ].
Proof. apply list_elem_of_fmap_2. apply elem_of_cons. right. apply elem_of_cons. by left. Qed.

Lemma only_last_range_clipped_witness :
  let file := osFile scenarioFile in
  let pageList :=
    pageOfRange file <$>
      [ {| range_offset := 0; range_length := 4096 |};
        {| range_offset := 8192; range_length := 4096 |} ] in
  let page := pageOfRange file {| range_offset := 8192; range_length := 4096 |} in
  let size := (transmitBounds 10000 page).2 in
  Int64.in_range 10000 /\ 0 <= 10000 /\
  storageBlobPageSplit file 10000 = ScanOk pageList /\
  page ∈ pageList /\
  0 < size /\
  (size = io.Size (section page) \/
   offset page + io.Size (section page) = paddedBlobSize 10000 /\
   size = 10000 - offset page /\ ~ aligned 10000).
Proof.
  intros file pageList page size.
  assert (0 <= 10000) as Hpos by discriminate.
  split; [exact scenario_in_range|]. split; [exact Hpos|].
  split; [exact scenario_split|]. split; [exact scenario_last_page|].
  exact (only_last_range_clipped file 10000 pageList page
           scenario_in_range Hpos scenario_split scenario_last_page).
Defined.

Lemma scenarioCopy_uri : SourceUri scenarioCopy <> "".
Proof. done. Qed.

Lemma Create_copy_first_witness :
  let sbu := scenarioCopy in
  let c := CopyAndWait (AccountName sbu) (ContainerName sbu) (BlobName sbu)
             (SourceUri sbu) (MetaData sbu) in
  let err := respond (Client sbu) [] c in
  SourceUri sbu <> "" /\
  Create scenarioHost [] sbu = Returned (ErrCopyWaiting <$> err) [Remote c err].
Proof.
  intros sbu c err. split; [exact scenarioCopy_uri|].
  exact (Create_copy_first scenarioHost [] sbu scenarioCopy_uri).
Defined.

Lemma scenarioCopy_path :
  SourceUri scenarioCopy <> "" \/
  strings_ToLower scenarioHost (BlobType scenarioCopy) <> "page" \/
  Source scenarioCopy = "".
Proof. by left. Qed.

Lemma Create_without_pool_witness :
  let sbu := scenarioCopy in
  (SourceUri sbu <> "" \/
   strings_ToLower scenarioHost (BlobType sbu) <> "page" \/ Source sbu = "") /\
  exists err log,
    Create scenarioHost [] sbu = Returned err log /\
    attempted log = [] /\ written log = [] /\
    ((log = [] /\ err <> None) \/
     exists c answer, log = [Remote c answer] /\ (err = None <-> answer = None)).
Proof.
  intros sbu. split; [exact scenarioCopy_path|].
  exact (Create_without_pool scenarioHost [] sbu scenarioCopy_path).
Defined.

Lemma missing_source_fails :
  let h := scenarioHost in
  let sbu := plainUpload acceptingClient "Page" 0 "missing.vhd" in
  SourceUri sbu = "" /\ strings_ToLower h (BlobType sbu) = "page" /\
  Source sbu <> "" /\ Size sbu = 0 /\
  os_Open h (Source sbu) = inl (ExternalError "no such file or directory").
Proof. repeat split; done. Qed.

Lemma stale_source_fails :
  let h := staleHost in
  let sbu := plainUpload acceptingClient "Page" 0 "disk.vhd" in
  let e := ExternalError "stale file handle" in
  let file := {| Name := "disk.vhd"; reader := osFile scenarioFile; Stat := inl e |} in
  SourceUri sbu = "" /\ strings_ToLower h (BlobType sbu) = "page" /\
  Source sbu <> "" /\ Size sbu = 0 /\
  os_Open h (Source sbu) = inr file /\ Stat file = inl e.
Proof. repeat split; done. Qed.

Lemma quota_refuses_creation :
  let h := scenarioHost in
  let sbu := plainUpload quotaClient "Page" 0 "disk.vhd" in
  let file := {| Name := "disk.vhd"; reader := osFile scenarioFile; Stat := inr 10000 |} in
  let c := PutPageBlob "account" "vhds" "disk" 10000 "application/octet-stream" ∅ in
  SourceUri sbu = "" /\ strings_ToLower h (BlobType sbu) = "page" /\
  Source sbu <> "" /\ Size sbu = 0 /\
  os_Open h (Source sbu) = inr file /\ Stat file = inr 10000 /\
  respond (Client sbu) [] c = Some (ExternalError "quota exceeded").
Proof. repeat split; done. Qed.

Lemma Create_page_upload_stops_early_witness :
  (let h := scenarioHost in
   let sbu := plainUpload acceptingClient "Page" 0 "missing.vhd" in
   let e := ExternalError "no such file or directory" in
   (SourceUri sbu = "" /\ strings_ToLower h (BlobType sbu) = "page" /\
    Source sbu <> "" /\ Size sbu = 0 /\
    os_Open h (Source sbu) = inl e) /\
   Create h [] sbu = Returned (Some (ErrOpeningSource "missing.vhd" e)) []) /\
  (let h := staleHost in
   let sbu := plainUpload acceptingClient "Page" 0 "disk.vhd" in
   let e := ExternalError "stale file handle" in
   let file := {| Name := "disk.vhd"; reader := osFile scenarioFile; Stat := inl e |} in
   (SourceUri sbu = "" /\ strings_ToLower h (BlobType sbu) = "page" /\
    Source sbu <> "" /\ Size sbu = 0 /\
    os_Open h (Source sbu) = inr file /\ Stat file = inl e) /\
   Create h [] sbu = Returned (Some (ErrStat "disk.vhd" e)) []) /\
  (let h := scenarioHost in
   let sbu := plainUpload quotaClient "Page" 0 "disk.vhd" in
   let e := ExternalError "quota exceeded" in
   let file := {| Name := "disk.vhd"; reader := osFile scenarioFile; Stat := inr 10000 |} in
   let c := PutPageBlob "account" "vhds" "disk" 10000 "application/octet-stream" ∅ in
   (SourceUri sbu = "" /\ strings_ToLower h (BlobType sbu) = "page" /\
    Source sbu <> "" /\ Size sbu = 0 /\
    os_Open h (Source sbu) = inr file /\ Stat file = inr 10000 /\
    respond (Client sbu) [] c = Some e) /\
   Create h [] sbu = Returned (Some (ErrPutPageBlob e)) [Remote c (Some e)]).
Proof.
  split; [|split].
  - intros h sbu e. split; [exact missing_source_fails|].
    destruct missing_source_fails as (H1 & H2 & H3 & H4 & Ho).
    exact (proj1 (Create_page_upload_stops_early h [] sbu H1 H2 H3 H4) e Ho).
  - intros h sbu e file. split; [exact stale_source_fails|].
    destruct stale_source_fails as (H1 & H2 & H3 & H4 & Ho & Hst).
    exact (proj1 (proj2 (Create_page_upload_stops_early h [] sbu H1 H2 H3 H4))
             file e Ho Hst).
  - intros h sbu e file c. split; [exact quota_refuses_creation|].
    destruct quota_refuses_creation as (H1 & H2 & H3 & H4 & Ho & Hst & Hc).
    exact (proj2 (proj2 (Create_page_upload_stops_early h [] sbu H1 H2 H3 H4))
             file 10000 e Ho Hst Hc).
Defined.

Lemma scenario_lookups :
  let pageList :=
    pageOfRange (osFile scenarioFile) <$>
      [ {| range_offset := 0; range_length := 4096 |};
        {| range_offset := 8192; range_length := 4096 |} ] in
  pageList !! 0%nat
    = Some (pageOfRange (osFile scenarioFile)
              {| range_offset := 0; range_length := 4096 |}) /\
  pageList !! 1%nat
    = Some (pageOfRange (osFile scenarioFile)
              {| range_offset := 8192; range_length := 4096 |}) /\
  (0 < 1)%nat.
Proof. repeat split; done || lia. Qed.

Lemma writes_do_not_overlap_witness :
  let file := osFile scenarioFile in
  let pageList :=
    pageOfRange file <$>
      [ {| range_offset := 0; range_length := 4096 |};
        {| range_offset := 8192; range_length := 4096 |} ] in
  let p1 := pageOfRange file {| range_offset := 0; range_length := 4096 |} in
  let p2 := pageOfRange file {| range_offset := 8192; range_length := 4096 |} in
  Int64.in_range 10000 /\
  storageBlobPageSplit file 10000 = ScanOk pageList /\
  pageList !! 0%nat = Some p1 /\ pageList !! 1%nat = Some p2 /\ (0 < 1)%nat /\
  (transmitBounds 10000 p1).1.2 < (transmitBounds 10000 p2).1.1.
Proof.
  intros file pageList p1 p2.
  destruct scenario_lookups as (H0 & H1 & Hlt).
  split; [exact scenario_in_range|]. split; [exact scenario_split|].
  split; [exact H0|]. split; [exact H1|]. split; [exact Hlt|].
  exact (writes_do_not_overlap file 10000 pageList 0 1 p1 p2
           scenario_in_range scenario_split H0 H1 Hlt).
Defined.

Lemma writes_within_file_size_witness :
  let file := osFile scenarioFile in
  let pageList :=
    pageOfRange file <$>
      [ {| range_offset := 0; range_length := 4096 |};
        {| range_offset := 8192; range_length := 4096 |} ] in
  Int64.in_range 10000 /\ 0 <= 10000 /\
  storageBlobPageSplit file 10000 = ScanOk pageList /\
  0 <= totalSize 10000 pageList <= 10000.
Proof.
  intros file pageList.
  assert (0 <= 10000) as Hpos by discriminate.
  split; [exact scenario_in_range|]. split; [exact Hpos|].
  split; [exact scenario_split|].
  exact (writes_within_file_size file 10000 pageList
           scenario_in_range Hpos scenario_split).
Defined.

Lemma scenario_open :
  let sbu := scenarioUpload acceptingClient 1 in
  let file := {| Name := "disk.vhd"; reader := osFile scenarioFile; Stat := inr 10000 |} in
  os_Open scenarioHost (Source sbu) = inr file /\
  reader file = osFile scenarioFile /\
  Stat file = inr (Z.of_nat (length scenarioFile)) /\
  SourceUri sbu = "" /\ strings_ToLower scenarioHost (BlobType sbu) = "page" /\
  Source sbu <> "" /\ Size sbu = 0.
Proof. repeat split; done. Qed.

Lemma Create_page_upload_succeeds_witness :
  let h := scenarioHost in
  let sbu := scenarioUpload acceptingClient 1 in
  let content := scenarioFile in
  let file := {| Name := "disk.vhd"; reader := osFile content; Stat := inr 10000 |} in
  let fileSize := Z.of_nat (length content) in
  let workerCount := Int64.mul (Parallelism sbu) (runtime_NumCPU h) in
  SourceUri sbu = "" /\ strings_ToLower h (BlobType sbu) = "page" /\
  Source sbu <> "" /\ Size sbu = 0 /\
  os_Open h (Source sbu) = inr file /\
  reader file = osFile content /\ Stat file = inr fileSize /\
  Int64.in_range fileSize /\
  accepting (Client sbu) /\
  (forall sched err log,
     Create h sched sbu = Returned err log ->
     err = None /\ createdSize log = [fileSize] /\ failedReads log = []) /\
  (1 <= workerCount -> exists sched log, Create h sched sbu = Returned None log).
Proof.
  intros h sbu content file fileSize workerCount.
  destruct scenario_open as (Ho & Hrd & Hst & H1 & H2 & H3 & H4).
  split; [exact H1|]. split; [exact H2|]. split; [exact H3|]. split; [exact H4|].
  split; [exact Ho|]. split; [exact Hrd|]. split; [exact Hst|].
  split; [exact scenario_length_in_range|].
  split; [exact accepting_acceptingClient|].
  exact (Create_page_upload_succeeds h sbu file content H1 H2 H3 H4 Ho Hrd Hst
           scenario_length_in_range accepting_acceptingClient).
Defined.
